(** * gum: a supervisor for goroutine work units (manager.go)

    A shallow embedding of [manager.go]: Go channels as bounded buffers,
    the structs [WorkUnitManager] and [Manager] as records, the closure
    returned by [genID] as a function over its captured map, registration
    ([AddUnit], [ShutdownOn], [NewManager]) as pure functions, and
    [Manager.Run] together with the goroutines it talks to as a labelled
    transition system whose manager side follows [Run] line by line. *)

From Stdlib Require Import ZArith Lia Ascii.
From stdpp Require Import base gmap strings list fin_maps pretty.

(** ** Go channels

    Every channel of the package is created with [make(chan T, 1)].  A
    buffered channel is a queue with a capacity and a closed flag: a send
    blocks while the queue is full and panics on a closed channel; a
    receive takes the oldest element, yields the zero value on a closed and
    drained channel, and blocks otherwise. *)

Record chan (A : Type) := Chan { buf : list A; cap : nat; closed : bool }.
Arguments Chan {A} _ _ _.
Arguments buf {A} _.
Arguments cap {A} _.
Arguments closed {A} _.

Definition make_chan {A : Type} (n : nat) : chan A :=
  {| buf := []; cap := n; closed := false |}.

Inductive send_result (A : Type) :=
| SendOk (c : chan A)
| SendBlocks
| SendOnClosed.
Arguments SendOk {A} _.
Arguments SendBlocks {A}.
Arguments SendOnClosed {A}.

Definition chan_send {A : Type} (c : chan A) (v : A) : send_result A :=
  if closed c then SendOnClosed
  else if decide (length (buf c) < cap c)
       then SendOk {| buf := buf c ++ [v]; cap := cap c; closed := closed c |}
       else SendBlocks.

Inductive recv_result (A : Type) :=
| RecvOk (v : A) (c : chan A)
| RecvBlocks.
Arguments RecvOk {A} _ _.
Arguments RecvBlocks {A}.

Definition chan_recv {A : Type} (zero : A) (c : chan A) : recv_result A :=
  match buf c with
  | v :: rest => RecvOk v {| buf := rest; cap := cap c; closed := closed c |}
  | [] => if closed c then RecvOk zero c else RecvBlocks
  end.

(** [close(c)]: [None] is the run-time panic "close of closed channel". *)
Definition chan_close {A : Type} (c : chan A) : option (chan A) :=
  if closed c then None
  else Some {| buf := buf c; cap := cap c; closed := true |}.

(** ** Data model *)

(** An [os.Signal] value: [None] is the nil interface, [Some n] the signal
    numbered [n]. *)
Abbreviation Signal := (option Z).

(** An [error] value: [None] is nil, [Some msg] an error whose [Error()]
    text is [msg]. *)
Abbreviation error := (option string).

(** A value implementing [WorkUnit].  The manager only ever looks at its
    dynamic type, through [reflect.TypeOf(unit).String()]. *)
Record WorkUnit := { TypeString : string }.

(** [WorkUnitManager].  The Go field [panic] aliases the manager's channel
    [m.panic]; the embedding keeps that one channel in [Manager] and lets
    [Panic] write there. *)
Record WorkUnitManager := {
  stop : chan bool;
  workerQuit : chan bool;
  unit : WorkUnit;
  isPaniced : bool
}.

Record Manager := {
  signalIn : chan Signal;
  shutdownSigs : list Signal;
  workers : gmap string WorkUnitManager;
  Quit : chan bool;
  panic : chan error
}.

(** ** The name generator *)

(** Go's [int] on a 64-bit platform: two's complement wrap-around. *)
Definition int_wrap (z : Z) : Z := ((z + 2 ^ 63) mod 2 ^ 64 - 2 ^ 63)%Z.

(** [genID()] allocates the captured map [ids]; the closure it returns is
    [idGenerator], here a function from the map to the result and the
    updated map. *)
Definition genID : gmap string Z := ∅.

Definition idGenerator (unit : string) (ids : gmap string Z) : Z * gmap string Z :=
  let ret := default 0%Z (ids !! unit) in
  (ret, <[unit := int_wrap (default 0%Z (ids !! unit) + 1)]> ids).

(** ** Registration *)

Inductive result (A : Type) :=
| Ok (a : A)
| RuntimePanic (msg : string).
Arguments Ok {A} _.
Arguments RuntimePanic {A} _.

(** [strings.Split(s, ".")]: the substrings between the dots, one more
    than there are dots. *)
Fixpoint Split_dot (s : string) : list string :=
  match s with
  | EmptyString => [EmptyString]
  | String c s' =>
      if decide (c = "."%char) then EmptyString :: Split_dot s'
      else match Split_dot s' with
           | h :: t => String c h :: t
           | [] => [String c EmptyString]
           end
  end.

Definition NewManager : Manager := {|
  signalIn := make_chan 1;
  Quit := make_chan 1;
  workers := ∅;
  panic := make_chan 1;
  shutdownSigs := []
|}.

(** [AddUnit].  The result carries the display name (the text the function
    logs), the generator's map and the manager. *)
Definition AddUnit (u : WorkUnit) (name : string)
    (ids : gmap string Z) (m : Manager) : result (string * gmap string Z * Manager) :=
  let workUnitManager := {|
    workerQuit := make_chan 1;
    stop := make_chan 1;
    unit := u;
    isPaniced := false
  |} in
  let unitType := TypeString u in
  match Split_dot unitType !! 1%nat with
  | None => RuntimePanic "index out of range [1] with length 1"
  | Some unitClass =>
      let unitName := name +:+ "[" +:+ unitClass in
      let '(unitID, ids') := idGenerator unitName ids in
      let unitName := unitName +:+ "#" +:+ pretty unitID +:+ "]" in
      Ok (unitName, ids',
          {| signalIn := signalIn m;
             shutdownSigs := shutdownSigs m;
             workers := <[unitName := workUnitManager]> (workers m);
             Quit := Quit m;
             panic := panic m |})
  end.

(** [ShutdownOn]: the subscription made by [signal.Notify] lives in the
    runtime; the manager's own state gains the signals. *)
Definition ShutdownOn (sig : list Signal) (m : Manager) : Manager :=
  {| signalIn := signalIn m;
     shutdownSigs := shutdownSigs m ++ sig;
     workers := workers m;
     Quit := Quit m;
     panic := panic m |}.

(** [in]. *)
Definition in_ (arr : list Signal) (sig : Signal) : bool :=
  bool_decide (sig ∈ arr).

(** A sequence of [AddUnit] calls on one manager, sharing the package's
    generator. *)
Fixpoint AddUnits (regs : list (WorkUnit * string))
    (ids : gmap string Z) (m : Manager) : result (list string * gmap string Z * Manager) :=
  match regs with
  | [] => Ok ([], ids, m)
  | (u, name) :: regs' =>
      match AddUnit u name ids m with
      | RuntimePanic msg => RuntimePanic msg
      | Ok (unitName, ids', m') =>
          match AddUnits regs' ids' m' with
          | RuntimePanic msg => RuntimePanic msg
          | Ok (names, ids'', m'') => Ok (unitName :: names, ids'', m'')
          end
      end
  end.

(** ** [Manager.Run] and the goroutines around it

    The state of a running program: the manager struct (with the
    [WorkUnitManager]s it points to, addressed by their registry key), the
    place [Run] has reached, the activations of [Panic] in flight, the
    units whose goroutine has been started, everything that has happened
    so far (newest first) and whether a run-time panic has killed the
    process. *)

(** The two [case]s of the [select] at line 75. *)
Inductive path := OnSignal | OnPanic.

Global Instance path_eq_dec : EqDecision path.
Proof. solve_decision. Defined.

(** Where [Run] stands.  A [range] over [m.workers] visits every key once,
    in an order Go leaves open: the keys still to visit are kept here. *)
Inductive Run_pc :=
| PcEntry                                         (* line 67 *)
| PcStart (todo : list string)                    (* lines 69-72 *)
| PcSelect                                        (* line 75 *)
| PcSigStop (todo : list string)                  (* lines 85-86 *)
| PcSigSend (name : string) (todo : list string)  (* line 87 *)
| PcPanLog (p : error) (todo : list string)       (* lines 103-107 *)
| PcPanStop (todo : list string)                  (* lines 109-111 *)
| PcPanSend (name : string) (todo : list string)  (* line 112 *)
| PcWait (via : path) (todo : list string)        (* lines 91-94, 117-120 *)
| PcQuit (via : path).                            (* lines 99, 125 *)

(** Where an activation of [Panic] stands. *)
Inductive Panic_pc :=
| L48 (err : error)
| L49
| L50
| L51
| Returned.

Global Instance Panic_pc_eq_dec : EqDecision Panic_pc.
Proof. solve_decision. Defined.

Inductive caller := ByDone | ByPanic.

Inductive event :=
(* Manager.Run *)
| EvLog (msg : string)
| EvGo (name : string)                          (* go w.unit.Run(w) *)
| EvRecvSignal (sig : Signal) (armed : bool)    (* <-m.signalIn, and in(...) *)
| EvRecvPanic (p : error)                       (* <-m.panic *)
| EvIsPaniced (name : string) (b : bool)        (* w.isPaniced read at line 111 *)
| EvSendStop (via : path) (name : string)       (* w.stop <- true *)
| EvRecvWorkerQuit (via : path) (name : string) (* <-w.workerQuit *)
| EvSendQuit (via : path)                       (* m.Quit <- true *)
(* the units *)
| EvShouldStop (name : string) (v : bool)       (* <-um.ShouldStop() *)
| EvSendWorkerQuit (by_ : caller) (name : string) (* w.workerQuit <- true *)
| EvSendPanic (name : string) (err : error)     (* w.panic <- err *)
| EvSetPaniced (name : string)                  (* w.isPaniced = true *)
| EvCloseStop (name : string)                   (* close(w.stop) *)
(* the runtime and the caller of Run *)
| EvNotify (sig : Signal) (delivered : bool)
| EvCallerRecvQuit.

Record sys := {
  mgr : Manager;
  run_pc : Run_pc;
  calls : list (string * Panic_pc);
  started : list string;
  trace : list event;
  crashed : bool
}.

Definition initial (m : Manager) : sys :=
  {| mgr := m; run_pc := PcEntry; calls := []; started := [];
     trace := []; crashed := false |}.

(** *** Field updates *)

Definition set_stop (c : chan bool) (w : WorkUnitManager) : WorkUnitManager :=
  {| stop := c; workerQuit := workerQuit w; unit := unit w; isPaniced := isPaniced w |}.
Definition set_workerQuit (c : chan bool) (w : WorkUnitManager) : WorkUnitManager :=
  {| stop := stop w; workerQuit := c; unit := unit w; isPaniced := isPaniced w |}.
Definition set_isPaniced (b : bool) (w : WorkUnitManager) : WorkUnitManager :=
  {| stop := stop w; workerQuit := workerQuit w; unit := unit w; isPaniced := b |}.

Definition set_signalIn (c : chan Signal) (m : Manager) : Manager :=
  {| signalIn := c; shutdownSigs := shutdownSigs m; workers := workers m;
     Quit := Quit m; panic := panic m |}.
Definition set_Quit (c : chan bool) (m : Manager) : Manager :=
  {| signalIn := signalIn m; shutdownSigs := shutdownSigs m; workers := workers m;
     Quit := c; panic := panic m |}.
Definition set_panic (c : chan error) (m : Manager) : Manager :=
  {| signalIn := signalIn m; shutdownSigs := shutdownSigs m; workers := workers m;
     Quit := Quit m; panic := c |}.
Definition set_worker (name : string) (w : WorkUnitManager) (m : Manager) : Manager :=
  {| signalIn := signalIn m; shutdownSigs := shutdownSigs m;
     workers := <[name := w]> (workers m);
     Quit := Quit m; panic := panic m |}.

Definition upd (f : Manager → Manager) (s : sys) : sys :=
  {| mgr := f (mgr s); run_pc := run_pc s; calls := calls s; started := started s;
     trace := trace s; crashed := crashed s |}.
Definition goto (p : Run_pc) (s : sys) : sys :=
  {| mgr := mgr s; run_pc := p; calls := calls s; started := started s;
     trace := trace s; crashed := crashed s |}.
Definition emit (e : event) (s : sys) : sys :=
  {| mgr := mgr s; run_pc := run_pc s; calls := calls s; started := started s;
     trace := e :: trace s; crashed := crashed s |}.
Definition spawn (name : string) (s : sys) : sys :=
  {| mgr := mgr s; run_pc := run_pc s; calls := calls s; started := name :: started s;
     trace := trace s; crashed := crashed s |}.
Definition set_calls (cs : list (string * Panic_pc)) (s : sys) : sys :=
  {| mgr := mgr s; run_pc := run_pc s; calls := cs; started := started s;
     trace := trace s; crashed := crashed s |}.
Definition crash (s : sys) : sys :=
  {| mgr := mgr s; run_pc := run_pc s; calls := calls s; started := started s;
     trace := trace s; crashed := true |}.

Notation "s |> f" := (f s) (at level 45, left associativity, only parsing).

Definition nl : string := String (ascii_of_nat 10) EmptyString.

(** [%s] applied to an error. *)
Definition fmt_error (p : error) : string :=
  match p with
  | Some msg => msg
  | None => "%!s(<nil>)"
  end.

(** *** One step of [Run]

    [order] is the order in which a [range] entered by this step will visit
    the registry: any enumeration of its keys without repetition. *)

Definition is_order (order : list string) (m : Manager) : bool :=
  bool_decide (NoDup order) &&
  bool_decide (list_to_set order =@{gset string} dom (workers m)).

Definition Run_step (case_ : path) (order : list string) (s : sys) : option sys :=
  let m := mgr s in
  match run_pc s with
  | PcEntry =>
      if is_order order m
      then Some (s |> emit (EvLog "Starting manager ...") |> goto (PcStart order))
      else None
  | PcStart (unitName :: todo) =>
      Some (s |> emit (EvLog ("Starting <" +:+ unitName +:+ ">" +:+ nl))
              |> emit (EvGo unitName) |> spawn unitName
              |> goto (PcStart todo))
  | PcStart [] => Some (s |> goto PcSelect)
  | PcSelect =>
      match case_ with
      | OnSignal =>
          match chan_recv None (signalIn m) with
          | RecvBlocks => None
          | RecvOk sig c =>
              let s := s |> upd (set_signalIn c)
                         |> emit (EvRecvSignal sig (in_ (shutdownSigs m) sig)) in
              if negb (in_ (shutdownSigs m) sig) then Some s
              else if is_order order m
              then Some (s |> emit (EvLog "shutting event received ... ")
                           |> goto (PcSigStop order))
              else None
          end
      | OnPanic =>
          match chan_recv None (panic m) with
          | RecvBlocks => None
          | RecvOk p c =>
              if is_order order m
              then Some (s |> upd (set_panic c) |> emit (EvRecvPanic p)
                           |> goto (PcPanLog p order))
              else None
          end
      end
  | PcSigStop (name :: todo) =>
      Some (s |> emit (EvLog ("shutting down <" +:+ name +:+ ">" +:+ nl))
              |> goto (PcSigSend name todo))
  | PcSigSend name todo =>
      w ← workers m !! name;
      match chan_send (stop w) true with
      | SendOk c =>
          Some (s |> upd (set_worker name (set_stop c w))
                  |> emit (EvSendStop OnSignal name) |> goto (PcSigStop todo))
      | SendBlocks => None
      | SendOnClosed => Some (crash s)
      end
  | PcSigStop [] =>
      if is_order order m then Some (s |> goto (PcWait OnSignal order)) else None
  | PcPanLog p (name :: todo) =>
      w ← workers m !! name;
      if isPaniced w
      then Some (s |> emit (EvLog ("Panicing for <" +:+ name +:+ ">: " +:+ fmt_error p))
                   |> goto (PcPanLog p todo))
      else Some (s |> goto (PcPanLog p todo))
  | PcPanLog p [] =>
      if is_order order m then Some (s |> goto (PcPanStop order)) else None
  | PcPanStop (name :: todo) =>
      w ← workers m !! name;
      let s := s |> emit (EvLog ("shuting down <" +:+ name +:+ ">" +:+ nl))
                 |> emit (EvIsPaniced name (isPaniced w)) in
      if negb (isPaniced w)
      then Some (s |> goto (PcPanSend name todo))
      else Some (s |> goto (PcPanStop todo))
  | PcPanSend name todo =>
      w ← workers m !! name;
      match chan_send (stop w) true with
      | SendOk c =>
          Some (s |> upd (set_worker name (set_stop c w))
                  |> emit (EvSendStop OnPanic name) |> goto (PcPanStop todo))
      | SendBlocks => None
      | SendOnClosed => Some (crash s)
      end
  | PcPanStop [] =>
      if is_order order m then Some (s |> goto (PcWait OnPanic order)) else None
  | PcWait via (name :: todo) =>
      w ← workers m !! name;
      match chan_recv false (workerQuit w) with
      | RecvBlocks => None
      | RecvOk _ c =>
          Some (s |> upd (set_worker name (set_workerQuit c w))
                  |> emit (EvRecvWorkerQuit via name)
                  |> emit (EvLog ("<" +:+ name +:+ "> down"))
                  |> goto (PcWait via todo))
      end
  | PcWait via [] =>
      Some (s |> emit (EvLog "All workers have shutdown, shutting down manager ...")
              |> goto (PcQuit via))
  | PcQuit via =>
      match chan_send (Quit m) true with
      | SendOk c =>
          Some (s |> upd (set_Quit c) |> emit (EvSendQuit via) |> goto PcSelect)
      | SendBlocks => None
      | SendOnClosed => Some (crash s)
      end
  end.

(** *** One line of [Panic] (lines 48-51), for the activation [k] *)

Definition Panic_step (k : nat) (s : sys) : option sys :=
  '(name, line) ← calls s !! k;
  w ← workers (mgr s) !! name;
  match line with
  | L48 err =>
      match chan_send (panic (mgr s)) err with
      | SendOk c =>
          Some (s |> upd (set_panic c) |> emit (EvSendPanic name err)
                  |> set_calls (<[k := (name, L49)]> (calls s)))
      | SendBlocks => None
      | SendOnClosed => Some (crash s)
      end
  | L49 =>
      Some (s |> upd (set_worker name (set_isPaniced true w))
              |> emit (EvSetPaniced name)
              |> set_calls (<[k := (name, L50)]> (calls s)))
  | L50 =>
      match chan_send (workerQuit w) true with
      | SendOk c =>
          Some (s |> upd (set_worker name (set_workerQuit c w))
                  |> emit (EvSendWorkerQuit ByPanic name)
                  |> set_calls (<[k := (name, L51)]> (calls s)))
      | SendBlocks => None
      | SendOnClosed => Some (crash s)
      end
  | L51 =>
      match chan_close (stop w) with
      | Some c =>
          Some (s |> upd (set_worker name (set_stop c w))
                  |> emit (EvCloseStop name)
                  |> set_calls (<[k := (name, Returned)]> (calls s)))
      | None => Some (crash s)
      end
  | Returned => None
  end.

(** *** The moves of the whole program *)

Inductive label :=
| LRun (case_ : path) (order : list string)  (* Run executes its next statement *)
| LNotify (sig : Signal)                     (* the runtime relays a signal *)
| LShouldStop (name : string)                (* a unit receives from ShouldStop() *)
| LDone (name : string)                      (* a unit calls Done() *)
| LPanic (name : string) (err : error)       (* a unit calls Panic(err) *)
| LPanicStep (k : nat)                       (* an activation of Panic moves on *)
| LCallerQuit.                               (* the caller receives from m.Quit *)

Definition is_started (name : string) (s : sys) : bool :=
  bool_decide (name ∈ started s).

(** [None]: the move is not possible now (a blocked channel operation, a
    goroutine that does not exist, a process that has died). *)
Definition step (l : label) (s : sys) : option sys :=
  if crashed s then None else
  match l with
  | LRun case_ order => Run_step case_ order s
  | LNotify sig =>
      (* signal.Notify never blocks: a signal that finds the buffer full is dropped *)
      match chan_send (signalIn (mgr s)) sig with
      | SendOk c => Some (s |> upd (set_signalIn c) |> emit (EvNotify sig true))
      | SendBlocks => Some (s |> emit (EvNotify sig false))
      | SendOnClosed => Some (crash s)
      end
  | LShouldStop name =>
      if is_started name s then
        w ← workers (mgr s) !! name;
        match chan_recv false (stop w) with
        | RecvOk v c =>
            Some (s |> upd (set_worker name (set_stop c w)) |> emit (EvShouldStop name v))
        | RecvBlocks => None
        end
      else None
  | LDone name =>
      if is_started name s then
        w ← workers (mgr s) !! name;
        match chan_send (workerQuit w) true with
        | SendOk c =>
            Some (s |> upd (set_worker name (set_workerQuit c w))
                    |> emit (EvSendWorkerQuit ByDone name))
        | SendBlocks => None
        | SendOnClosed => Some (crash s)
        end
      else None
  | LPanic name err =>
      if is_started name s then
        _ ← workers (mgr s) !! name;
        Some (s |> set_calls (calls s ++ [(name, L48 err)]))
      else None
  | LPanicStep k => Panic_step k s
  | LCallerQuit =>
      match chan_recv false (Quit (mgr s)) with
      | RecvOk _ c => Some (s |> upd (set_Quit c) |> emit EvCallerRecvQuit)
      | RecvBlocks => None
      end
  end.

Fixpoint run (ls : list label) (s : sys) : option sys :=
  match ls with
  | [] => Some s
  | l :: ls' => s' ← step l s; run ls' s'
  end.


(** * Vocabulary of the statements *)

(** ** Strings *)

(** [strings.ContainsRune(s, c)]. *)
Fixpoint has_char (c : ascii) (s : string) : bool :=
  match s with
  | EmptyString => false
  | String c' s' => bool_decide (c' = c) || has_char c s'
  end.

(** The characters [%d] prints. *)
Definition sign_or_digit (c : ascii) : Prop :=
  c ∈ ["-"; "0"; "1"; "2"; "3"; "4"; "5"; "6"; "7"; "8"; "9"]%char.

(** ** Registration *)

(** The second segment of the type's text, and the key under which
    [AddUnit] asks the generator for a suffix (line 164). *)
Definition unitClass (u : WorkUnit) : option string :=
  Split_dot (TypeString u) !! 1%nat.

Definition unitKey (r : WorkUnit * string) : option string :=
  (λ cls, r.2 +:+ "[" +:+ cls) <$> unitClass r.1.

(** How often [k] occurs in [seen]. *)
Definition times (k : string) (seen : list string) : nat :=
  length (filter (λ x, x = k) seen).

(** The generator's map after it has been asked for the keys [seen]. *)
Definition gen_counts (seen : list string) (ids : gmap string Z) : Prop :=
  ∀ k, default 0%Z (ids !! k) = Z.of_nat (times k seen).

(** ** What is counted in a trace *)

(** [occ P tr]: how many events of [tr] satisfy [P]. *)
Fixpoint occ (P : event → bool) (tr : list event) : nat :=
  match tr with
  | [] => 0
  | e :: tr' => (if P e then 1 else 0) + occ P tr'
  end.

(** The events the statements count: the quit signals, the armed signals
    received, the failure reports drained, the starts of a unit, the
    receives from and the sends on a unit's done channel, the stop
    notifications, the readings of a unit's flag at line 111 by their
    result, and the four effects of [Panic]. *)
Definition is_quit (via : path) (e : event) : bool :=
  match e with EvSendQuit v => bool_decide (v = via) | _ => false end.
Definition is_armed (e : event) : bool :=
  match e with EvRecvSignal _ armed => armed | _ => false end.
Definition is_drain (e : event) : bool :=
  match e with EvRecvPanic _ => true | _ => false end.
Definition is_go (n : string) (e : event) : bool :=
  match e with EvGo m => bool_decide (m = n) | _ => false end.
Definition is_wait (via : path) (n : string) (e : event) : bool :=
  match e with
  | EvRecvWorkerQuit v m => bool_decide (v = via) && bool_decide (m = n)
  | _ => false
  end.
Definition is_done (n : string) (e : event) : bool :=
  match e with EvSendWorkerQuit _ m => bool_decide (m = n) | _ => false end.
Definition is_stop (via : path) (n : string) (e : event) : bool :=
  match e with
  | EvSendStop v m => bool_decide (v = via) && bool_decide (m = n)
  | _ => false
  end.
Definition is_read (b : bool) (n : string) (e : event) : bool :=
  match e with
  | EvIsPaniced m b' => bool_decide (b' = b) && bool_decide (m = n)
  | _ => false
  end.
Definition is_send_panic (n : string) (e : event) : bool :=
  match e with EvSendPanic m _ => bool_decide (m = n) | _ => false end.
Definition is_set_paniced (n : string) (e : event) : bool :=
  match e with EvSetPaniced m => bool_decide (m = n) | _ => false end.
Definition is_done_by_panic (n : string) (e : event) : bool :=
  match e with EvSendWorkerQuit ByPanic m => bool_decide (m = n) | _ => false end.
Definition is_close_stop (n : string) (e : event) : bool :=
  match e with EvCloseStop m => bool_decide (m = n) | _ => false end.

Definition is_report (e : event) : bool :=
  match e with EvSendPanic _ _ => true | _ => false end.

(** ** Where [Run] and [Panic] stand, in numbers *)

(** The keys the current [range] (and the statement in hand) still has to
    deal with. *)
Definition pc_todo (pc : Run_pc) : list string :=
  match pc with
  | PcStart t | PcSigStop t | PcPanLog _ t | PcPanStop t | PcWait _ t => t
  | PcSigSend n t | PcPanSend n t => n :: t
  | PcEntry | PcSelect | PcQuit _ => []
  end.

(** 1 while [Run] is inside the [case] [via] of the [select]. *)
Definition in_pass (via : path) (pc : Run_pc) : nat :=
  match pc with
  | PcEntry | PcStart _ | PcSelect => 0
  | PcSigStop _ | PcSigSend _ _ => if bool_decide (via = OnSignal) then 1 else 0
  | PcPanLog _ _ | PcPanStop _ | PcPanSend _ _ =>
      if bool_decide (via = OnPanic) then 1 else 0
  | PcWait v _ | PcQuit v => if bool_decide (v = via) then 1 else 0
  end.

(** 1 when [Run] is inside the [case] [via] and has already received
    [n]'s done signal there. *)
Definition waited (via : path) (pc : Run_pc) (n : string) : nat :=
  match pc with
  | PcWait v t =>
      if bool_decide (v = via) && negb (bool_decide (n ∈ t)) then 1 else 0
  | PcQuit v => if bool_decide (v = via) then 1 else 0
  | _ => 0
  end.

(** 1 when the shutdown in hand came from a signal and has not yet sent
    [n] its stop notification. *)
Definition unsent (pc : Run_pc) (n : string) : nat :=
  match pc with
  | PcSigStop t => if bool_decide (n ∈ t) then 1 else 0
  | PcSigSend m t => if bool_decide (n ∈ m :: t) then 1 else 0
  | _ => 0
  end.

(** 1 when the shutdown in hand came from a failure report and has not
    yet read [n]'s flag at line 111. *)
Definition unread (pc : Run_pc) (n : string) : nat :=
  match pc with
  | PcPanLog _ _ => 1
  | PcPanStop t | PcPanSend _ t => if bool_decide (n ∈ t) then 1 else 0
  | _ => 0
  end.

(** 1 when [Run] has read [n]'s flag unset and stands before the send of
    line 112. *)
Definition owed (pc : Run_pc) (n : string) : nat :=
  match pc with
  | PcPanSend m _ => if bool_decide (m = n) then 1 else 0
  | _ => 0
  end.

(** 1 once the first loop has started [n]. *)
Definition gone (pc : Run_pc) (n : string) : nat :=
  match pc with
  | PcEntry => 0
  | PcStart t => if bool_decide (n ∈ t) then 0 else 1
  | _ => 1
  end.

(** How many activations of [Panic] of the unit [n] stand before the line
    [l]. *)
Definition at_line (n : string) (l : Panic_pc) (cs : list (string * Panic_pc)) : nat :=
  length (filter (λ c, c = (n, l)) cs).

(** ** Invariants of a run *)

(** What every state of a run satisfies, for the registry keys [D]. *)
Record Run_inv (D : gset string) (s : sys) : Prop := {
  inv_dom : dom (workers (mgr s)) = D;
  inv_todo_nodup : NoDup (pc_todo (run_pc s));
  inv_todo_dom : ∀ n, n ∈ pc_todo (run_pc s) → n ∈ D;
  inv_pass_sig :
    occ is_armed (trace s)
    = occ (is_quit OnSignal) (trace s) + in_pass OnSignal (run_pc s);
  inv_pass_pan :
    occ is_drain (trace s)
    = occ (is_quit OnPanic) (trace s) + in_pass OnPanic (run_pc s);
  inv_wait_sig : ∀ n, n ∈ D →
    occ (is_wait OnSignal n) (trace s)
    = occ (is_quit OnSignal) (trace s) + waited OnSignal (run_pc s) n;
  inv_wait_pan : ∀ n, n ∈ D →
    occ (is_wait OnPanic n) (trace s)
    = occ (is_quit OnPanic) (trace s) + waited OnPanic (run_pc s) n;
  inv_sig_stop : ∀ n, n ∈ D →
    occ (is_stop OnSignal n) (trace s) + unsent (run_pc s) n
    = occ is_armed (trace s);
  inv_read : ∀ n, n ∈ D →
    occ (is_read true n) (trace s) + occ (is_read false n) (trace s)
      + unread (run_pc s) n
    = occ is_drain (trace s);
  inv_pan_stop : ∀ n, n ∈ D →
    occ (is_stop OnPanic n) (trace s) + owed (run_pc s) n
    = occ (is_read false n) (trace s);
  inv_go : ∀ n, n ∈ D → occ (is_go n) (trace s) = gone (run_pc s) n
}.

(** What the channels hold: a done channel is open and holds what its
    unit has sent and [Run] has not yet received; the failure sink is
    open, of capacity one, and holds the reports not yet drained; a set
    flag and a closed stop channel come from [Panic]. *)
Record Buf_inv (s : sys) : Prop := {
  buf_done : ∀ n w, workers (mgr s) !! n = Some w →
    closed (workerQuit w) = false ∧
    length (buf (workerQuit w))
      + (occ (is_wait OnSignal n) (trace s) + occ (is_wait OnPanic n) (trace s))
    = occ (is_done n) (trace s);
  buf_sink :
    closed (panic (mgr s)) = false ∧ cap (panic (mgr s)) = 1 ∧
    length (buf (panic (mgr s))) ≤ 1 ∧
    length (buf (panic (mgr s))) + occ is_drain (trace s) = occ is_report (trace s);
  buf_flag : ∀ n w, workers (mgr s) !! n = Some w →
    (isPaniced w = true → 1 ≤ occ (is_set_paniced n) (trace s)) ∧
    (closed (stop w) = true → 1 ≤ occ (is_close_stop n) (trace s))
}.

(** The activations of [Panic]: what a unit has done at one line and not
    yet at the next is what its activations standing before the next line
    will do. *)
Record Panic_inv (s : sys) : Prop := {
  pan_49 : ∀ n,
    occ (is_send_panic n) (trace s)
    = occ (is_set_paniced n) (trace s) + at_line n L49 (calls s);
  pan_50 : ∀ n,
    occ (is_set_paniced n) (trace s)
    = occ (is_done_by_panic n) (trace s) + at_line n L50 (calls s);
  pan_51 : ∀ n,
    occ (is_done_by_panic n) (trace s)
    = occ (is_close_stop n) (trace s) + at_line n L51 (calls s)
}.

(** A manager as [NewManager], [AddUnit] and [ShutdownOn] leave it: every
    channel empty and open, no unit flagged. *)
Record fresh (m : Manager) : Prop := {
  fresh_panic : panic m = make_chan 1;
  fresh_Quit : Quit m = make_chan 1;
  fresh_signalIn : signalIn m = make_chan 1;
  fresh_workers : ∀ n w, workers m !! n = Some w →
    stop w = make_chan 1 ∧ workerQuit w = make_chan 1 ∧ isPaniced w = false
}.

(** ** A manager with two units and some of its schedules *)

(** A unit of the type the README registers. *)
Definition Worker : WorkUnit := {| TypeString := "*main.Worker" |}.

Definition demo_regs : list (WorkUnit * string) :=
  [(Worker, "work1"); (Worker, "work2")].
Definition demo_names : list string :=
  match AddUnits demo_regs genID NewManager with Ok (names, _, _) => names | _ => [] end.
Definition demo_ids : gmap string Z :=
  match AddUnits demo_regs genID NewManager with Ok (_, ids, _) => ids | _ => ∅ end.
Definition demo_mgr : Manager :=
  match AddUnits demo_regs genID NewManager with Ok (_, _, m) => m | _ => NewManager end.

(** The keys of the two units, and two signals. *)
Definition SIGINT : Signal := Some 2%Z.
Definition SIGHUP : Signal := Some 1%Z.
Definition w1 : string := "work1[Worker#0]".
Definition w2 : string := "work2[Worker#0]".

(** [Run] executes its next statement (a statement that needs no choice). *)
Definition next : label := LRun OnSignal [].

(** The state a schedule leads to (the initial state when it cannot run). *)
Definition after (ls : list label) (m : Manager) : sys :=
  default (initial m) (run ls (initial m)).

(** [Run] starts both units and reaches the [select]. *)
Definition demo_start : list label :=
  [LRun OnSignal [w1; w2]; next; next; next].

(** SIGINT arrives; both units are told to stop; both report done; [Run]
    signals quit. *)
Definition demo_signal_shutdown : list label :=
  demo_start ++
  [LNotify SIGINT; LRun OnSignal [w1; w2]; next; next; next; next;
   LRun OnSignal [w2; w1];
   LShouldStop w2; LDone w2; LShouldStop w1; LDone w1;
   next; next; next; next].

(** As before, but the unit [w2] never reports done. *)
Definition demo_hanging_unit : list label :=
  demo_start ++
  [LNotify SIGINT; LRun OnSignal [w1; w2]; next; next; next; next;
   LRun OnSignal [w1; w2];
   LShouldStop w1; LDone w1; LShouldStop w2;
   next].

(** A failure: [w1] calls [Panic] and runs it to its end; [Run] drains the
    report, finds [w1] flagged and [w2] not, tells [w2] to stop, receives
    both done signals and signals quit. *)
Definition demo_failure_shutdown : list label :=
  demo_start ++
  [LPanic w1 (Some "boom");
   LPanicStep 0; LPanicStep 0; LPanicStep 0; LPanicStep 0;
   LRun OnPanic [w1; w2]; next; next;
   LRun OnSignal [w1; w2]; next; next; next;
   LRun OnSignal [w1; w2];
   LShouldStop w2; LDone w2;
   next; next; next; next].

(** Two failures at once: [w1] and [w2] both call [Panic]; [w1] gets its
    report into the sink first. *)
Definition demo_two_failures : list label :=
  demo_start ++
  [LPanic w1 (Some "boom"); LPanic w2 (Some "bang"); LPanicStep 0].

(** [Run] drains [w1]'s report and reads [w2]'s flag unset; [w2] then
    fails as well and closes its stop channel before [Run] sends on it. *)
Definition demo_late_failure : list label :=
  demo_start ++
  [LPanic w1 (Some "boom");
   LPanicStep 0; LPanicStep 0; LPanicStep 0; LPanicStep 0;
   LRun OnPanic [w1; w2]; next; next;
   LRun OnSignal [w1; w2]; next; next;
   LPanic w2 (Some "bang");
   LPanicStep 1; LPanicStep 1; LPanicStep 1; LPanicStep 1;
   next].

(** SIGHUP arrives at a manager armed for SIGINT only. *)
Definition demo_unarmed_signal : list label := demo_start ++ [LNotify SIGHUP].

(** Both units have reported done; [Run] stands before its wait loop. *)
Definition demo_all_done : list label :=
  demo_start ++
  [LNotify SIGINT; LRun OnSignal [w1; w2]; next; next; next; next;
   LRun OnSignal [w2; w1];
   LShouldStop w2; LDone w2; LShouldStop w1; LDone w1].

(** After a first shutdown the caller takes the quit signal; a second
    SIGINT arrives and the units answer once more. *)
Definition demo_second_shutdown : list label :=
  demo_signal_shutdown ++
  [LCallerQuit; LNotify SIGINT; LRun OnSignal [w1; w2]; next; next; next; next;
   LRun OnSignal [w1; w2];
   LShouldStop w1; LDone w1; LShouldStop w2; LDone w2;
   next; next; next; next].

(** [w1] has called [Panic] and stands before line 48. *)
Definition demo_panic_called : list label :=
  demo_start ++ [LPanic w1 (Some "boom")].

(** ** More on strings and registration *)

(** [strings.Count(s, string(c))]. *)
Fixpoint count_char (c : ascii) (s : string) : nat :=
  match s with
  | EmptyString => 0
  | String c' s' => (if decide (c' = c) then 1 else 0) + count_char c s'
  end.

(** [strings.Join(l, ".")]. *)
Fixpoint Join_dot (l : list string) : string :=
  match l with
  | [] => EmptyString
  | s :: l' =>
      match l' with
      | [] => s
      | _ :: _ => s +:+ "." +:+ Join_dot l'
      end
  end.

(** The [WorkUnitManager] that [AddUnit] builds for a unit (lines 155-160). *)
Definition new_WorkUnitManager (u : WorkUnit) : WorkUnitManager :=
  {| stop := make_chan 1; workerQuit := make_chan 1;
     unit := u; isPaniced := false |}.

(** ** More of what is counted, and more invariants *)

(** The receives of the caller from [Quit], the receives of a unit from
    [ShouldStop()] by the value received, and anything a unit does. *)
Definition is_caller_quit (e : event) : bool :=
  match e with EvCallerRecvQuit => true | _ => false end.
Definition is_should_stop (v : bool) (n : string) (e : event) : bool :=
  match e with
  | EvShouldStop m v' => bool_decide (v' = v) && bool_decide (m = n)
  | _ => false
  end.
Definition is_act (n : string) (e : event) : bool :=
  match e with
  | EvShouldStop m _ | EvSendWorkerQuit _ m | EvSendPanic m _
  | EvSetPaniced m | EvCloseStop m => bool_decide (m = n)
  | _ => false
  end.

(** An armed signal that [Run] has received is one of [sigs]. *)
Definition armed_in (sigs : list Signal) (e : event) : Prop :=
  match e with
  | EvRecvSignal sig true => sig ∈ sigs
  | _ => True
  end.

(** What the other channels hold.  [Quit] and [signalIn] are open, of
    capacity one; [Quit] holds the quit signals the caller has not yet
    taken.  A stop channel has capacity one and holds the notifications,
    all [true], that its unit has not yet received; a unit has received
    the zero value only from a closed stop channel, and a stop channel
    that was closed stays closed.  A done channel has capacity one.  The
    armed signals are fixed and [Run] has reacted to no other. *)
Record Chan_inv (sigs : list Signal) (s : sys) : Prop := {
  ci_sigs : shutdownSigs (mgr s) = sigs;
  ci_armed : Forall (armed_in sigs) (trace s);
  ci_Quit :
    closed (Quit (mgr s)) = false ∧ cap (Quit (mgr s)) = 1 ∧
    length (buf (Quit (mgr s))) ≤ 1 ∧
    length (buf (Quit (mgr s))) + occ is_caller_quit (trace s)
    = occ (is_quit OnSignal) (trace s) + occ (is_quit OnPanic) (trace s);
  ci_signalIn :
    closed (signalIn (mgr s)) = false ∧ cap (signalIn (mgr s)) = 1 ∧
    length (buf (signalIn (mgr s))) ≤ 1;
  ci_stop : ∀ n w, workers (mgr s) !! n = Some w →
    cap (stop w) = 1 ∧ length (buf (stop w)) ≤ 1 ∧
    length (buf (stop w)) + occ (is_should_stop true n) (trace s)
    = occ (is_stop OnSignal n) (trace s) + occ (is_stop OnPanic n) (trace s) ∧
    Forall (λ v, v = true) (buf (stop w)) ∧
    (1 ≤ occ (is_should_stop false n) (trace s) → closed (stop w) = true) ∧
    (1 ≤ occ (is_close_stop n) (trace s) → closed (stop w) = true);
  ci_done : ∀ n w, workers (mgr s) !! n = Some w →
    cap (workerQuit w) = 1 ∧ length (buf (workerQuit w)) ≤ 1
}.

(** Who acts has been started: the started units are those of the [go]
    statements so far, and only they call [Panic], [Done] or receive from
    [ShouldStop()]. *)
Record Start_inv (s : sys) : Prop := {
  si_go : ∀ n, n ∈ started s → 1 ≤ occ (is_go n) (trace s);
  si_calls : ∀ k n l, calls s !! k = Some (n, l) → n ∈ started s;
  si_act : ∀ n, 1 ≤ occ (is_act n) (trace s) → n ∈ started s
}.

(** ** More schedules of the manager with two units *)

(** [w1] fails, and a SIGINT arrives before [Run] has looked at the
    failure: [Run] takes the signal and stands before the stop send for
    [w1]. *)
Definition demo_signal_after_failure : list label :=
  demo_start ++
  [LPanic w1 (Some "boom");
   LPanicStep 0; LPanicStep 0; LPanicStep 0; LPanicStep 0;
   LNotify SIGINT; LRun OnSignal [w1; w2]; next].

(** A shutdown in which the units report done without having read their
    stop notification; then the caller takes the quit signal, a second
    SIGINT arrives, and [Run] stands before the stop send for [w1]. *)
Definition demo_unread_stop : list label :=
  demo_start ++
  [LNotify SIGINT; LRun OnSignal [w1; w2]; next; next; next; next;
   LRun OnSignal [w1; w2];
   LDone w1; LDone w2;
   next; next; next; next;
   LCallerQuit; LNotify SIGINT; LRun OnSignal [w1; w2]; next].

(** [w1] calls [Panic] twice; the first activation returns, the second
    stands before the close. *)
Definition demo_panic_twice : list label :=
  demo_start ++
  [LPanic w1 (Some "boom"); LPanic w1 (Some "again");
   LPanicStep 0; LPanicStep 0; LPanicStep 0; LPanicStep 0;
   LRun OnPanic [w1; w2];
   LPanicStep 1; LPanicStep 1;
   next; next; LRun OnSignal [w1; w2]; next; next; next;
   LRun OnSignal [w1; w2]; next;
   LPanicStep 1].

(** [w1] has reported done once and [Run] has not yet waited for it. *)
Definition demo_done_pending : list label :=
  demo_start ++ [LDone w1].

(** A signal arrives at a manager for which no signal was armed. *)
Definition demo_signal_unarmed_manager : list label :=
  demo_start ++ [LNotify SIGINT; LRun OnSignal [w1; w2]].

(** ** Shutdowns in which the units cooperate *)














(** The lines of [Run]'s [for] loop (74-128). *)
Definition in_loop (pc : Run_pc) : bool :=
  match pc with
  | PcEntry | PcStart _ => false
  | _ => true
  end.

(** The events of [tr] (newest first) that are newer than its oldest
    event satisfying [P]. *)
Fixpoint since (P : event → bool) (tr : list event) : list event :=
  match tr with
  | [] => []
  | e :: tr' => if existsb P tr' then e :: since P tr' else []
  end.

(** The events that trigger a shutdown: an armed signal received, a
    failure report drained. *)
Definition is_trigger (e : event) : bool := is_armed e || is_drain e.





(** ** Schedules for the theorems on whole shutdowns *)

(** [w1] has failed: its [Panic] has run to its end, and [Run] has not yet
    looked at the report. *)
Definition demo_failed : list label :=
  demo_start ++
  [LPanic w1 (Some "boom");
   LPanicStep 0; LPanicStep 0; LPanicStep 0; LPanicStep 0].

(** A SIGINT has been delivered to the running manager. *)
Definition demo_signalled : list label := demo_start ++ [LNotify SIGINT].

(** Both units call [Done] before any shutdown is triggered and never
    again; then SIGINT arrives, and [Run] goes through its stop loop and
    its wait loop to the quit signal. *)
Definition demo_early_done : list label :=
  demo_start ++
  [LDone w1; LDone w2;
   LNotify SIGINT; LRun OnSignal [w1; w2]; next; next; next; next;
   LRun OnSignal [w1; w2]; next; next; next; next].


(** After a first shutdown the caller does not take the quit signal; a
    second SIGINT arrives, the units answer once more, and [Run] stands
    before the quit send with [Quit] still full. *)
Definition demo_quit_unread : list label :=
  demo_signal_shutdown ++
  [LNotify SIGINT; LRun OnSignal [w1; w2]; next; next; next; next;
   LRun OnSignal [w1; w2];
   LShouldStop w1; LDone w1; LShouldStop w2; LDone w2;
   next; next; next].


(** * Strings: splitting and formatting *)

Lemma app_String c (s t : string) : String c s +:+ t = String c (s +:+ t).
Proof. done. Qed.

Lemma app_empty (t : string) : "" +:+ t = t.
Proof. done. Qed.

Lemma has_char_app c s1 s2 :
  has_char c (s1 +:+ s2) = has_char c s1 || has_char c s2.
Proof.
  induction s1 as [|c' s1 IH]; simpl; [done|].
  rewrite IH. by rewrite orb_assoc.
Qed.

Lemma Split_dot_nonempty s : Split_dot s ≠ [].
Proof.
  destruct s as [|c s]; simpl; [done|].
  case_decide; [done|]. by destruct (Split_dot s).
Qed.

Lemma Split_dot_no_dot s : has_char "." s = false → Split_dot s = [s].
Proof.
  induction s as [|c s IH]; simpl; [done|].
  intros [Hc Hs]%orb_false_iff. apply bool_decide_eq_false in Hc.
  case_decide; [done|]. by rewrite IH.
Qed.

Lemma Split_dot_cut a r :
  has_char "." a = false →
  Split_dot (a +:+ String "." r) = a :: Split_dot r.
Proof.
  induction a as [|c a IH]; simpl.
  - done.
  - intros [Hc Ha]%orb_false_iff. apply bool_decide_eq_false in Hc.
    case_decide; [done|]. by rewrite IH.
Qed.

Lemma string_app_nil_r (s : string) : s +:+ "" = s.
Proof. induction s as [|c s IH]; [done|]. rewrite app_String. by f_equal. Qed.

Lemma string_app_assoc (s1 s2 s3 : string) :
  (s1 +:+ s2) +:+ s3 = s1 +:+ s2 +:+ s3.
Proof. induction s1 as [|c s1 IH]; [done|]. rewrite !app_String. by f_equal. Qed.

(** The segment between the first and the second dot. *)
Lemma Split_dot_second a b c :
  has_char "." a = false → has_char "." b = false →
  c = "" ∨ (∃ c', c = String "." c') →
  Split_dot (a +:+ "." +:+ b +:+ c) !! 1%nat = Some b.
Proof.
  intros Ha Hb Hc. change ("." +:+ b +:+ c) with (String "." (b +:+ c)).
  rewrite Split_dot_cut by done. simpl.
  destruct Hc as [->|[c' ->]].
  - rewrite string_app_nil_r, Split_dot_no_dot by done. done.
  - by rewrite Split_dot_cut.
Qed.

(** Cutting a string at the last occurrence of a separator is unambiguous. *)
Lemma cut_at_last (c : ascii) k1 d1 k2 d2 :
  has_char c d1 = false → has_char c d2 = false →
  k1 +:+ String c d1 = k2 +:+ String c d2 → k1 = k2 ∧ d1 = d2.
Proof.
  intros H1 H2. revert k2.
  induction k1 as [|x k1 IH]; intros [|y k2];
    rewrite ?app_String, ?app_empty; intros Heq.
  - by simplify_eq.
  - simplify_eq. rewrite has_char_app in H1. simpl in H1.
    rewrite bool_decide_eq_true_2 in H1 by done.
    by rewrite orb_true_r in H1.
  - simplify_eq. rewrite has_char_app in H2. simpl in H2.
    rewrite bool_decide_eq_true_2 in H2 by done.
    by rewrite orb_true_r in H2.
  - simplify_eq. destruct (IH k2) as [-> ->]; done.
Qed.

Lemma pretty_N_char_digit x : sign_or_digit (pretty_N_char x).
Proof.
  unfold sign_or_digit, pretty_N_char.
  repeat case_match; set_solver.
Qed.

Lemma pretty_N_go_chars c x s :
  has_char c (pretty_N_go x s) = true → has_char c s = true ∨ sign_or_digit c.
Proof.
  revert s. induction (N.lt_wf_0 x) as [x _ IH]; intros s.
  assert (x = 0 ∨ 0 < x)%N as [->|?] by lia.
  - rewrite pretty_N_go_0. auto.
  - rewrite pretty_N_go_step by done. intros Hc.
    apply IH in Hc; [|by apply N.div_lt].
    destruct Hc as [Hc|]; [|by right]. simpl in Hc.
    apply orb_true_iff in Hc as [Hc|]; [|by left].
    apply bool_decide_eq_true in Hc as <-. right. apply pretty_N_char_digit.
Qed.

(** [%d] prints a sign and decimal digits only. *)
Lemma pretty_Z_chars c (z : Z) :
  has_char c (pretty z) = true → sign_or_digit c.
Proof.
  assert (∀ n : N, has_char c (pretty n) = true → sign_or_digit c) as HN.
  { intros n. unfold pretty, pretty_N. case_decide.
    - simpl. rewrite orb_false_r. intros <-%bool_decide_eq_true.
      unfold sign_or_digit. set_solver.
    - intros [Hc|]%pretty_N_go_chars; done. }
  unfold pretty, pretty_Z. destruct z as [|p|p].
  - simpl. rewrite orb_false_r. intros <-%bool_decide_eq_true.
    unfold sign_or_digit. set_solver.
  - apply (HN (N.pos p)).
  - rewrite has_char_app. simpl. rewrite orb_false_r.
    intros [<-%bool_decide_eq_true|Hc]%orb_true_iff.
    + unfold sign_or_digit. set_solver.
    + by apply (HN (N.pos p)).
Qed.

Lemma pretty_Z_no_char c (z : Z) : ¬ sign_or_digit c → has_char c (pretty z) = false.
Proof.
  intros Hc. destruct (has_char c (pretty z)) eqn:E; [|done].
  by apply pretty_Z_chars in E.
Qed.

(** The display name determines the generator's key and the suffix. *)
Lemma display_name_inj k1 (z1 : Z) k2 (z2 : Z) :
  k1 +:+ "#" +:+ pretty z1 +:+ "]" = k2 +:+ "#" +:+ pretty z2 +:+ "]" →
  k1 = k2 ∧ z1 = z2.
Proof.
  intros Heq.
  assert (¬ sign_or_digit "#"%char) as Hhash.
  { unfold sign_or_digit. rewrite !elem_of_cons, elem_of_nil. intuition discriminate. }
  assert (¬ sign_or_digit "]"%char) as Hbr.
  { unfold sign_or_digit. rewrite !elem_of_cons, elem_of_nil. intuition discriminate. }
  apply (cut_at_last "#") in Heq as [-> Heq].
  - split; [done|].
    apply (cut_at_last "]" _ "" _ "") in Heq as [Heq _];
      [by apply (inj pretty)|done|done].
  - rewrite has_char_app, pretty_Z_no_char by done. done.
  - rewrite has_char_app, pretty_Z_no_char by done. done.
Qed.

(** * The name generator and registration *)

Lemma times_le k seen : times k seen ≤ length seen.
Proof. apply length_filter. Qed.

Lemma times_cons k x seen :
  times k (x :: seen) = (if decide (x = k) then 1 else 0) + times k seen.
Proof. unfold times. rewrite filter_cons. by case_decide. Qed.

Lemma int_wrap_small z : (- 2 ^ 63 ≤ z < 2 ^ 63)%Z → int_wrap z = z.
Proof. intros. unfold int_wrap. rewrite Z.mod_small; lia. Qed.

Lemma gen_counts_empty : gen_counts [] genID.
Proof. intros k. unfold genID. by rewrite lookup_empty. Qed.

Lemma idGenerator_spec seen ids key :
  gen_counts seen ids → (Z.of_nat (length seen) < 2 ^ 63 - 1)%Z →
  (idGenerator key ids).1 = Z.of_nat (times key seen) ∧
  gen_counts (key :: seen) (idGenerator key ids).2.
Proof.
  intros Hids Hlen. unfold idGenerator. simpl. split; [apply Hids|].
  intros k. rewrite times_cons. destruct (decide (key = k)) as [->|Hne].
  - rewrite lookup_insert_eq. simpl. rewrite Hids.
    pose proof (times_le k seen). rewrite int_wrap_small; lia.
  - rewrite lookup_insert_ne by done. apply Hids.
Qed.

Lemma AddUnit_Ok u name ids m unitName ids' m' :
  AddUnit u name ids m = Ok (unitName, ids', m') →
  ∃ cls, unitClass u = Some cls ∧
    unitName = (name +:+ "[" +:+ cls) +:+ "#"
                 +:+ pretty (idGenerator (name +:+ "[" +:+ cls) ids).1 +:+ "]" ∧
    ids' = (idGenerator (name +:+ "[" +:+ cls) ids).2 ∧
    m' = set_worker unitName
           {| stop := make_chan 1; workerQuit := make_chan 1;
              unit := u; isPaniced := false |} m.
Proof.
  unfold AddUnit, unitClass. destruct (Split_dot (TypeString u) !! 1%nat) as [cls|]; [|done].
  intros [= <- <- <-]. by exists cls.
Qed.

Lemma filter_take_lt {A} (P : A → Prop) `{∀ x, Decision (P x)} (l : list A) i j x :
  i < j → l !! i = Some x → P x →
  length (filter P (take i l)) < length (filter P (take j l)).
Proof.
  intros Hij Hi HP.
  assert (take j l = take i l ++ x :: take (j - S i) (drop (S i) l)) as ->.
  { rewrite <-(take_drop_middle l i x) at 1 by done.
    rewrite take_app_ge by (rewrite length_take; lia).
    f_equal. apply lookup_lt_Some in Hi.
    rewrite length_take, Nat.min_l by lia.
    replace (j - i) with (S (j - S i)) by lia. done. }
  rewrite filter_app, filter_cons_True, length_app by done. simpl. lia.
Qed.

Lemma AddUnits_length regs : ∀ ids m names ids' m',
  AddUnits regs ids m = Ok (names, ids', m') → length names = length regs.
Proof.
  induction regs as [|[u name] regs IH]; simpl; intros ids m names ids' m' Hok.
  - by simplify_eq.
  - destruct (AddUnit u name ids m) as [[[n0 ids0] m0]|]; [|done].
    destruct (AddUnits regs ids0 m0) as [[[ns ids1] m1]|] eqn:E; [|done].
    simplify_eq. simpl. f_equal. eauto.
Qed.

(** The [i]-th registration is named after its key and the number of
    earlier requests for the same key. *)
Lemma AddUnits_lookup regs : ∀ seen ids m names ids' m' i u name,
  gen_counts seen ids →
  (Z.of_nat (length seen + length regs) < 2 ^ 63)%Z →
  AddUnits regs ids m = Ok (names, ids', m') →
  regs !! i = Some (u, name) →
  ∃ cls, unitClass u = Some cls ∧
    names !! i = Some ((name +:+ "[" +:+ cls) +:+ "#" +:+
      pretty (Z.of_nat (times (name +:+ "[" +:+ cls) seen +
        length (filter (λ r, unitKey r = Some (name +:+ "[" +:+ cls)) (take i regs))))
      +:+ "]").
Proof.
  induction regs as [|[u0 name0] regs IH]; intros seen ids m names ids' m' i u name
    Hids Hlen Hok Hi; [done|].
  simpl in Hok, Hlen.
  destruct (AddUnit u0 name0 ids m) as [[[n0 ids0] m0]|] eqn:E0; [|done].
  destruct (AddUnits regs ids0 m0) as [[[ns ids1] m1]|] eqn:E1; [|done].
  simplify_eq.
  apply AddUnit_Ok in E0 as (cls0 & Hcls0 & -> & -> & ->).
  destruct (idGenerator_spec seen ids (name0 +:+ "[" +:+ cls0) Hids) as [Hret Hids0]; [lia|].
  destruct i as [|i]; simpl in Hi.
  - simplify_eq. exists cls0. split; [done|]. rewrite Hret.
    by rewrite Nat.add_0_r.
  - destruct (IH _ _ _ _ _ _ i u name Hids0 ltac:(simpl; lia) E1 Hi)
      as (cls & Hcls & Hname).
    assert (unitKey (u0, name0) = Some (name0 +:+ "[" +:+ cls0)) as Hk0.
    { unfold unitKey. simpl. by rewrite Hcls0. }
    exists cls. split; [done|]. simpl. rewrite Hname. do 4 f_equal.
    rewrite times_cons, filter_cons, Hk0.
    destruct (decide (name0 +:+ "[" +:+ cls0 = name +:+ "[" +:+ cls)) as [->|Hne].
    + rewrite decide_True by done. simpl. do 2 f_equal. lia.
    + rewrite decide_False by congruence. done.
Qed.

(** C4.  For every sequence of registrations, starting from the fresh
    generator: the [i]-th registration gets as suffix the number of earlier
    registrations with the same key (so a key's suffixes are 0, 1, 2, ...),
    its display name is [label[type#suffix]], and the display names are
    pairwise distinct.  The sequence is shorter than the range of Go's
    [int], so the counter does not wrap around. *)
Theorem idGenerator_suffixes_and_distinct_names
    (regs : list (WorkUnit * string)) (m0 : Manager)
    (names : list string) (ids : gmap string Z) (m : Manager) :
  (Z.of_nat (length regs) < 2 ^ 63)%Z →
  AddUnits regs genID m0 = Ok (names, ids, m) →
  (∀ i u name, regs !! i = Some (u, name) →
     ∃ cls, unitClass u = Some cls ∧
       names !! i = Some ((name +:+ "[" +:+ cls) +:+ "#" +:+
         pretty (Z.of_nat (length
           (filter (λ r, unitKey r = unitKey (u, name)) (take i regs)))) +:+ "]"))
  ∧ NoDup names.
Proof.
  intros Hlen Hok.
  assert (∀ i u name, regs !! i = Some (u, name) →
     ∃ cls, unitClass u = Some cls ∧
       names !! i = Some ((name +:+ "[" +:+ cls) +:+ "#" +:+
         pretty (Z.of_nat (length
           (filter (λ r, unitKey r = unitKey (u, name)) (take i regs)))) +:+ "]"))
    as Hnames.
  { intros i u name Hi.
    destruct (AddUnits_lookup regs [] genID m0 names ids m i u name
                gen_counts_empty ltac:(simpl; lia) Hok Hi) as (cls & Hcls & Hn).
    exists cls. split; [done|]. rewrite Hn.
    assert (unitKey (u, name) = Some (name +:+ "[" +:+ cls)) as ->; [|done].
    unfold unitKey. simpl. by rewrite Hcls. }
  split; [done|].
  apply NoDup_alt. 
  assert (∀ i j x, i < j → names !! i = Some x → names !! j = Some x → False) as Hlt.
  { intros i j x Hij Hxi Hxj.
    pose proof (AddUnits_length _ _ _ _ _ _ Hok) as Hl.
    destruct (lookup_lt_is_Some_2 regs i) as [[u name] Hi].
    { rewrite <-Hl. by eapply lookup_lt_Some. }
    destruct (lookup_lt_is_Some_2 regs j) as [[u' name'] Hj].
    { rewrite <-Hl. by eapply lookup_lt_Some. }
    destruct (Hnames _ _ _ Hi) as (cls & Hcls & Hn).
    destruct (Hnames _ _ _ Hj) as (cls' & Hcls' & Hn').
    rewrite Hxi in Hn. rewrite Hxj in Hn'.
    pose proof (eq_trans (eq_sym Hn) Hn') as Heq. injection Heq as Heq.
    apply display_name_inj in Heq as [Hkey Hcnt].
    apply Nat2Z.inj in Hcnt.
    assert (unitKey (u, name) = unitKey (u', name')) as Hk.
    { unfold unitKey. simpl. rewrite Hcls, Hcls'. simpl. by rewrite Hkey. }
    rewrite <-Hk in Hcnt.
    pose proof (filter_take_lt (λ r, unitKey r = unitKey (u, name)) regs i j
                  (u, name) Hij Hi eq_refl). lia. }
  intros i j x Hxi Hxj.
  destruct (Nat.lt_trichotomy i j) as [?|[?|?]]; [|done|]; exfalso; eauto.
Qed.

(** C9.  [AddUnit] takes as type name the text between the first and the
    second dot of the type's string; when that string has no dot,
    [AddUnit] ends in the run-time panic of the out-of-range index
    instead of registering the unit. *)
Theorem AddUnit_type_segment_or_panic
    (u : WorkUnit) (name : string) (ids : gmap string Z) (m : Manager) :
  (∀ a b c, TypeString u = a +:+ "." +:+ b +:+ c →
     has_char "." a = false → has_char "." b = false →
     c = "" ∨ (∃ c', c = String "." c') →
     ∃ ids' m',
       AddUnit u name ids m =
         Ok ((name +:+ "[" +:+ b) +:+ "#" +:+
               pretty (default 0%Z (ids !! (name +:+ "[" +:+ b))) +:+ "]", ids', m'))
  ∧ (has_char "." (TypeString u) = false →
     AddUnit u name ids m = RuntimePanic "index out of range [1] with length 1").
Proof.
  split.
  - intros a b c Hty Ha Hb Hc. unfold AddUnit.
    rewrite Hty, Split_dot_second by done. simpl. eauto.
  - intros Hno. unfold AddUnit. rewrite Split_dot_no_dot by done. done.
Qed.

Lemma idGenerator_suffixes_and_distinct_names_witness :
  ∃ names ids m,
    AddUnits [(Worker, "work1"); (Worker, "work2"); (Worker, "work1")]
      genID NewManager = Ok (names, ids, m) ∧
    names = ["work1[Worker#0]"; "work2[Worker#0]"; "work1[Worker#1]"] ∧
    NoDup names.
Proof.
  pose (r := AddUnits [(Worker, "work1"); (Worker, "work2"); (Worker, "work1")]
               genID NewManager).
  exists (match r with Ok (names, _, _) => names | _ => [] end),
         (match r with Ok (_, ids, _) => ids | _ => ∅ end),
         (match r with Ok (_, _, m) => m | _ => NewManager end).
  assert (r = Ok (match r with Ok (names, _, _) => names | _ => [] end,
                  match r with Ok (_, ids, _) => ids | _ => ∅ end,
                  match r with Ok (_, _, m) => m | _ => NewManager end)) as Hr
    by reflexivity.
  split; [exact Hr|]. split; [vm_compute; reflexivity|].
  apply (idGenerator_suffixes_and_distinct_names
           [(Worker, "work1"); (Worker, "work2"); (Worker, "work1")] NewManager
           _ _ _ ltac:(simpl; lia) Hr).
Defined.

Lemma AddUnit_type_segment_or_panic_witness :
  (∃ ids' m', AddUnit Worker "work1" genID NewManager =
                Ok ("work1[Worker#0]", ids', m'))
  ∧ AddUnit {| TypeString := "struct {}" |} "work1" genID NewManager =
      RuntimePanic "index out of range [1] with length 1".
Proof.
  split.
  - apply (proj1 (AddUnit_type_segment_or_panic Worker "work1" genID NewManager)
             "*main" "Worker" ""); [reflexivity|reflexivity|reflexivity|by left].
  - apply (proj2 (AddUnit_type_segment_or_panic
                    {| TypeString := "struct {}" |} "work1" genID NewManager)).
    reflexivity.
Defined.

(** * Runs of the program *)

(** ** Channel operations *)

Lemma chan_send_Ok {A} (c c' : chan A) v :
  chan_send c v = SendOk c' →
  closed c = false ∧ length (buf c) < cap c ∧
  c' = {| buf := buf c ++ [v]; cap := cap c; closed := false |}.
Proof.
  unfold chan_send. destruct (closed c) eqn:E; [done|].
  case_decide; [|done]. intros [= <-]. done.
Qed.

Lemma chan_recv_Ok {A} (zero : A) (c c' : chan A) v :
  chan_recv zero c = RecvOk v c' →
  (buf c = v :: buf c' ∧ cap c' = cap c ∧ closed c' = closed c)
  ∨ (buf c = [] ∧ closed c = true ∧ c' = c ∧ v = zero).
Proof.
  unfold chan_recv. destruct (buf c) as [|x rest] eqn:E.
  - destruct (closed c); [|done]. intros [= <- <-]. by right.
  - intros [= <- <-]. by left.
Qed.

Lemma is_order_spec order m :
  is_order order m = true →
  NoDup order ∧ ∀ n, n ∈ order ↔ n ∈ dom (workers m).
Proof.
  unfold is_order. intros [H1 H2]%andb_true_iff.
  apply bool_decide_eq_true in H1, H2. split; [done|].
  intros n. rewrite <-H2. by rewrite elem_of_list_to_set.
Qed.

(** ** Induction over runs *)


Lemma run_invariant (P : sys → Prop) :
  (∀ l s s', P s → step l s = Some s' → P s') →
  ∀ ls s s', P s → run ls s = Some s' → P s'.
Proof.
  intros Hstep ls. induction ls as [|l ls IH]; intros s s' HP Hrun; simpl in Hrun.
  - by simplify_eq.
  - destruct (step l s) as [s1|] eqn:E; [|done]. simpl in Hrun. eauto.
Qed.

(** ** The invariants are kept by every move *)

#[local] Set Warnings "-clear-no-such-hyp".

Ltac step_cases H :=
  repeat match type of H with
  | context [negb ?b] => destruct b eqn:?; simpl in H
  | context [match ?x with _ => _ end] => destruct x eqn:?; try discriminate
  | context [mbind _ ?x] => destruct x eqn:?; simpl in H; try discriminate
  end.

Ltac order_facts :=
  repeat match goal with
  | H : is_order _ _ = true |- _ => apply is_order_spec in H as [? ?]
  | H : NoDup (_ :: _) |- _ => apply NoDup_cons in H as [? ?]
  | v : path |- _ => destruct v
  end.

Ltac member_fin := first [ done | set_solver ].

Ltac count_fin :=
  let n := fresh "n" in let Hn := fresh "Hn" in
  intros n Hn;
  repeat match goal with
  | H : ∀ x, x ∈ dom _ → _ |- _ => specialize (H n Hn)
  end;
  simpl in *; repeat case_bool_decide; simplify_eq; simpl in *;
  first [ lia | exfalso; member_fin ].

Ltac inv_fields :=
  constructor; simpl;
    [ first [ done | apply dom_insert_lookup_L; eauto ]
    | first [ done | by constructor ]
    | member_fin
    | simpl in *; lia
    | simpl in *; lia
    | count_fin .. ].

Lemma Run_inv_step D l s s' : Run_inv D s → step l s = Some s' → Run_inv D s'.
Proof.
  intros [Hdom Hnd Htd Hps Hpp Hws Hwp Hsig Hread Hpan Hgo] Hstep.
  destruct s as [m pc cs st tr cr]; simpl in *. subst D.
  unfold step in Hstep; simpl in Hstep.
  destruct cr; [done|].
  destruct l; simpl in Hstep.
  - unfold Run_step in Hstep; simpl in Hstep.
    destruct pc as [ | [|n t] | | [|n t] | n t | p [|n t] | [|n t] | n t | via [|n t] | via ];
      simpl in *; step_cases Hstep; simplify_eq; order_facts; inv_fields.
  - step_cases Hstep; simplify_eq; inv_fields.
  - step_cases Hstep; simplify_eq; inv_fields.
  - step_cases Hstep; simplify_eq; inv_fields.
  - step_cases Hstep; simplify_eq; inv_fields.
  - unfold Panic_step in Hstep; simpl in Hstep; step_cases Hstep; simplify_eq; inv_fields.
  - step_cases Hstep; simplify_eq; inv_fields.
Qed.

Lemma chan_close_Some {A} (c c' : chan A) :
  chan_close c = Some c' →
  closed c = false ∧ c' = {| buf := buf c; cap := cap c; closed := true |}.
Proof. unfold chan_close. destruct (closed c); [done|]. by intros [= <-]. Qed.

Ltac chan_facts :=
  repeat match goal with
  | H : chan_send _ _ = SendOk _ |- _ => apply chan_send_Ok in H as (? & ? & ->)
  | H : chan_recv _ _ = RecvOk _ _ |- _ =>
      apply chan_recv_Ok in H as [(? & ? & ?)|(? & ? & -> & ->)]
  | H : chan_close _ = Some _ |- _ => apply chan_close_Some in H as (? & ->)
  end.

Ltac lookup_cases :=
  repeat match goal with
  | H : <[?n := _]> _ !! ?n0 = Some _ |- _ =>
      destruct (decide (n = n0)) as [->|];
        [rewrite lookup_insert_eq in H | rewrite lookup_insert_ne in H by done];
        simplify_eq
  end.

Ltac use_inv H1 H2 :=
  repeat match goal with
  | Hw : workers _ !! ?n = Some ?w |- _ =>
      pose proof (H1 n w Hw); pose proof (H2 n w Hw); clear Hw
  end.

Ltac buf_fin H1 H2 :=
  try (let n := fresh "n" in let w := fresh "w" in let Hw := fresh "Hw" in
       intros n w Hw; simpl in *; lookup_cases);
  simpl in *; use_inv H1 H2; destruct_and?;
  simpl in *; rewrite ?length_app in *; simpl in *;
  repeat case_bool_decide; simplify_eq; simpl in *;
  repeat match goal with
  | H : buf _ = _ |- _ => rewrite H in *
  | H : closed _ = closed _ |- _ => rewrite H in *
  end; simpl in *;
  repeat split; try done; try congruence; try lia.

Lemma Buf_inv_step l s s' : Buf_inv s → step l s = Some s' → Buf_inv s'.
Proof.
  intros [Hdone Hsink Hflag] Hstep.
  destruct s as [m pc cs st tr cr]; simpl in *.
  unfold step in Hstep; simpl in Hstep.
  destruct cr; [done|].
  destruct l; simpl in Hstep.
  - unfold Run_step in Hstep; simpl in Hstep.
    destruct pc as [ | [|n t] | | [|n t] | n t | p [|n t] | [|n t] | n t | via [|n t] | via ];
      simpl in *; step_cases Hstep; simplify_eq; order_facts; chan_facts.
    all: constructor; simpl; buf_fin Hdone Hflag.
  - step_cases Hstep; simplify_eq; chan_facts; constructor; simpl; buf_fin Hdone Hflag.
  - step_cases Hstep; simplify_eq; chan_facts; constructor; simpl; buf_fin Hdone Hflag.
  - step_cases Hstep; simplify_eq; chan_facts; constructor; simpl; buf_fin Hdone Hflag.
  - step_cases Hstep; simplify_eq; chan_facts; constructor; simpl; buf_fin Hdone Hflag.
  - unfold Panic_step in Hstep; simpl in Hstep.
    step_cases Hstep; simplify_eq; chan_facts; constructor; simpl; buf_fin Hdone Hflag.
  - step_cases Hstep; simplify_eq; chan_facts; constructor; simpl; buf_fin Hdone Hflag.
Qed.

Lemma at_line_app n l cs c :
  at_line n l (cs ++ [c]) = at_line n l cs + (if decide (c = (n, l)) then 1 else 0).
Proof.
  unfold at_line. rewrite filter_app, length_app. f_equal.
  rewrite filter_cons, filter_nil. by case_decide.
Qed.

Lemma at_line_insert n l cs k c c' :
  cs !! k = Some c →
  at_line n l (<[k := c']> cs) + (if decide (c = (n, l)) then 1 else 0)
  = at_line n l cs + (if decide (c' = (n, l)) then 1 else 0).
Proof.
  unfold at_line. revert k. induction cs as [|x cs IH]; intros [|k] Hk; simplify_eq/=.
  - rewrite !filter_cons.
    destruct (decide (c' = (n, l))), (decide (c = (n, l))); simpl; lia.
  - specialize (IH k Hk). rewrite !filter_cons.
    destruct (decide (x = (n, l))); simpl; lia.
Qed.

Ltac pan_fin :=
  let n := fresh "n" in
  intros n;
  repeat match goal with
  | H : ∀ x : string, _ = _ |- _ => specialize (H n)
  end;
  repeat match goal with
  | Hk : ?cs !! ?k = Some ?c |- context [at_line ?n ?l (<[?k := ?c']> ?cs)] =>
      let H' := fresh in
      pose proof (at_line_insert n l cs k c c' Hk) as H';
      generalize dependent (at_line n l (<[k := c']> cs)); intros
  end;
  rewrite ?at_line_app in *;
  simpl in *; repeat case_bool_decide; repeat case_decide; simplify_eq; simpl in *; lia.

Lemma Panic_inv_step l s s' : Panic_inv s → step l s = Some s' → Panic_inv s'.
Proof.
  intros [H49 H50 H51] Hstep.
  destruct s as [m pc cs st tr cr]; simpl in *.
  unfold step in Hstep; simpl in Hstep.
  destruct cr; [done|].
  destruct l; simpl in Hstep.
  - unfold Run_step in Hstep; simpl in Hstep.
    destruct pc as [ | [|n t] | | [|n t] | n t | p [|n t] | [|n t] | n t | via [|n t] | via ];
      simpl in *; step_cases Hstep; simplify_eq; constructor; simpl; pan_fin.
  - step_cases Hstep; simplify_eq; constructor; simpl; pan_fin.
  - step_cases Hstep; simplify_eq; constructor; simpl; pan_fin.
  - step_cases Hstep; simplify_eq; constructor; simpl; pan_fin.
  - step_cases Hstep; simplify_eq; constructor; simpl; pan_fin.
  - unfold Panic_step in Hstep; simpl in Hstep.
    step_cases Hstep; simplify_eq; constructor; simpl; pan_fin.
  - step_cases Hstep; simplify_eq; constructor; simpl; pan_fin.
Qed.

(** ** The state [Run] starts from *)

Lemma fresh_NewManager : fresh NewManager.
Proof. by constructor. Qed.

Lemma fresh_ShutdownOn sigs m : fresh m → fresh (ShutdownOn sigs m).
Proof. intros [? ? ? ?]. by constructor. Qed.

Lemma fresh_AddUnits regs : ∀ ids m names ids' m',
  fresh m → AddUnits regs ids m = Ok (names, ids', m') → fresh m'.
Proof.
  induction regs as [|[u name] regs IH]; simpl; intros ids m names ids' m' Hm Hok.
  - by simplify_eq.
  - destruct (AddUnit u name ids m) as [[[n0 ids0] m0]|] eqn:E0; [|done].
    destruct (AddUnits regs ids0 m0) as [[[ns ids1] m1]|] eqn:E1; [|done].
    simplify_eq. eapply IH; [|done].
    apply AddUnit_Ok in E0 as (cls & _ & -> & -> & ->).
    destruct Hm as [? ? ? Hw]. constructor; try done.
    intros n w. simpl. intros Hn.
    apply lookup_insert_Some in Hn as [[_ <-]|[_ Hn]]; [done|eauto].
Qed.

Lemma AddUnits_dom regs : ∀ ids m names ids' m',
  AddUnits regs ids m = Ok (names, ids', m') →
  dom (workers m') = list_to_set names ∪ dom (workers m).
Proof.
  induction regs as [|[u name] regs IH]; simpl; intros ids m names ids' m' Hok.
  - simplify_eq. set_solver.
  - destruct (AddUnit u name ids m) as [[[n0 ids0] m0]|] eqn:E0; [|done].
    destruct (AddUnits regs ids0 m0) as [[[ns ids1] m1]|] eqn:E1; [|done].
    simplify_eq. rewrite (IH _ _ _ _ _ E1).
    apply AddUnit_Ok in E0 as (cls & _ & -> & -> & ->).
    simpl. rewrite dom_insert_L. set_solver.
Qed.

Lemma Run_inv_initial m : Run_inv (dom (workers m)) (initial m).
Proof. constructor; simpl; try done; try apply NoDup_nil_2; try set_solver. Qed.

Lemma Buf_inv_initial m : fresh m → Buf_inv (initial m).
Proof.
  intros [Hp _ _ Hw]. constructor; simpl.
  - intros n w Hn. destruct (Hw n w Hn) as (_ & -> & _). done.
  - rewrite Hp. simpl. repeat split; lia.
  - intros n w Hn. destruct (Hw n w Hn) as (-> & _ & ->). done.
Qed.

Lemma Panic_inv_initial m : Panic_inv (initial m).
Proof. by constructor. Qed.

(** Every state of every run of a manager set up by registrations and
    [ShutdownOn] satisfies the three invariants. *)
Lemma run_invariants regs ids0 names ids m0 sigs ls s :
  AddUnits regs ids0 NewManager = Ok (names, ids, m0) →
  run ls (initial (ShutdownOn sigs m0)) = Some s →
  Run_inv (list_to_set names) s ∧ Buf_inv s ∧ Panic_inv s.
Proof.
  intros Hok Hrun.
  assert (list_to_set names = dom (workers (ShutdownOn sigs m0))) as ->.
  { simpl. rewrite (AddUnits_dom _ _ _ _ _ _ Hok). simpl. set_solver. }
  split; [|split].
  - eapply run_invariant; [apply Run_inv_step|apply Run_inv_initial|done].
  - eapply run_invariant; [apply Buf_inv_step| |done].
    apply Buf_inv_initial, fresh_ShutdownOn.
    eapply fresh_AddUnits; [apply fresh_NewManager|done].
  - eapply run_invariant; [apply Panic_inv_step|apply Panic_inv_initial|done].
Qed.

(** ** The example manager *)

Lemma demo_setup_Ok :
  AddUnits demo_regs genID NewManager = Ok (demo_names, demo_ids, demo_mgr).
Proof. reflexivity. Qed.

Lemma demo_names_eq : demo_names = [w1; w2].
Proof. vm_compute. reflexivity. Qed.

Lemma after_run ls m : is_Some (run ls (initial m)) → run ls (initial m) = Some (after ls m).
Proof. unfold after. by intros [s ->]. Qed.

(** ** [Run], statement by statement *)

Lemma is_order_nil m : workers m = ∅ → is_order [] m = true.
Proof.
  intros Hw. unfold is_order. rewrite Hw, dom_empty_L.
  apply andb_true_iff. split; apply bool_decide_eq_true_2; [apply NoDup_nil_2|done].
Qed.

Lemma run_cons l ls s s1 :
  step l s = Some s1 → run (l :: ls) s = run ls s1.
Proof. intros H. simpl. by rewrite H. Qed.

Lemma step_LRun case_ order s :
  crashed s = false → step (LRun case_ order) s = Run_step case_ order s.
Proof. intros H. unfold step. by rewrite H. Qed.

Lemma Run_step_Entry case_ order s :
  run_pc s = PcEntry → is_order order (mgr s) = true →
  Run_step case_ order s
  = Some (s |> emit (EvLog "Starting manager ...") |> goto (PcStart order)).
Proof. intros Hpc Ho. unfold Run_step. by rewrite Hpc, Ho. Qed.

Lemma Run_step_Start_nil case_ order s :
  run_pc s = PcStart [] → Run_step case_ order s = Some (s |> goto PcSelect).
Proof. intros Hpc. unfold Run_step. by rewrite Hpc. Qed.

Lemma Run_step_Select_armed order s sig rest :
  run_pc s = PcSelect →
  buf (signalIn (mgr s)) = sig :: rest →
  in_ (shutdownSigs (mgr s)) sig = true →
  is_order order (mgr s) = true →
  Run_step OnSignal order s
  = Some (s |> upd (set_signalIn {| buf := rest; cap := cap (signalIn (mgr s));
                                    closed := closed (signalIn (mgr s)) |})
            |> emit (EvRecvSignal sig true)
            |> emit (EvLog "shutting event received ... ")
            |> goto (PcSigStop order)).
Proof.
  intros Hpc Hbuf Hin Ho. unfold Run_step, chan_recv.
  by rewrite Hpc, Hbuf, Hin, Ho.
Qed.

Lemma Run_step_SigStop_nil case_ order s :
  run_pc s = PcSigStop [] → is_order order (mgr s) = true →
  Run_step case_ order s = Some (s |> goto (PcWait OnSignal order)).
Proof. intros Hpc Ho. unfold Run_step. by rewrite Hpc, Ho. Qed.

Lemma Run_step_Wait_cons case_ order s via name todo w v rest :
  run_pc s = PcWait via (name :: todo) →
  workers (mgr s) !! name = Some w →
  buf (workerQuit w) = v :: rest →
  Run_step case_ order s
  = Some (s |> upd (set_worker name
                      (set_workerQuit {| buf := rest; cap := cap (workerQuit w);
                                         closed := closed (workerQuit w) |} w))
            |> emit (EvRecvWorkerQuit via name)
            |> emit (EvLog ("<" +:+ name +:+ "> down"))
            |> goto (PcWait via todo)).
Proof.
  intros Hpc Hw Hbuf. unfold Run_step, chan_recv. rewrite Hpc, Hw. simpl.
  by rewrite Hbuf.
Qed.

Lemma Run_step_Wait_nil case_ order s via :
  run_pc s = PcWait via [] →
  Run_step case_ order s
  = Some (s |> emit (EvLog "All workers have shutdown, shutting down manager ...")
            |> goto (PcQuit via)).
Proof. intros Hpc. unfold Run_step. by rewrite Hpc. Qed.

Lemma Run_step_Quit case_ order s via :
  run_pc s = PcQuit via →
  closed (Quit (mgr s)) = false →
  length (buf (Quit (mgr s))) < cap (Quit (mgr s)) →
  Run_step case_ order s
  = Some (s |> upd (set_Quit {| buf := buf (Quit (mgr s)) ++ [true];
                                cap := cap (Quit (mgr s));
                                closed := closed (Quit (mgr s)) |})
            |> emit (EvSendQuit via) |> goto PcSelect).
Proof.
  intros Hpc Hopen Hlen. unfold Run_step, chan_send. rewrite Hpc, Hopen.
  by rewrite decide_True.
Qed.

(** ** [Panic], line by line *)

Lemma step_LPanicStep k s :
  crashed s = false → step (LPanicStep k) s = Panic_step k s.
Proof. intros H. unfold step. by rewrite H. Qed.

Lemma Panic_step_48 k s name err w :
  calls s !! k = Some (name, L48 err) →
  workers (mgr s) !! name = Some w →
  closed (panic (mgr s)) = false →
  length (buf (panic (mgr s))) < cap (panic (mgr s)) →
  Panic_step k s
  = Some (s |> upd (set_panic {| buf := buf (panic (mgr s)) ++ [err];
                                 cap := cap (panic (mgr s));
                                 closed := closed (panic (mgr s)) |})
            |> emit (EvSendPanic name err)
            |> set_calls (<[k := (name, L49)]> (calls s))).
Proof.
  intros Hk Hw Hopen Hroom. unfold Panic_step, chan_send. rewrite Hk. simpl.
  rewrite Hw. simpl. rewrite Hopen. by rewrite decide_True.
Qed.

Lemma Panic_step_49 k s name w :
  calls s !! k = Some (name, L49) →
  workers (mgr s) !! name = Some w →
  Panic_step k s
  = Some (s |> upd (set_worker name (set_isPaniced true w))
            |> emit (EvSetPaniced name)
            |> set_calls (<[k := (name, L50)]> (calls s))).
Proof.
  intros Hk Hw. unfold Panic_step. rewrite Hk. simpl. by rewrite Hw.
Qed.

Lemma Panic_step_50 k s name w :
  calls s !! k = Some (name, L50) →
  workers (mgr s) !! name = Some w →
  closed (workerQuit w) = false →
  length (buf (workerQuit w)) < cap (workerQuit w) →
  Panic_step k s
  = Some (s |> upd (set_worker name
                      (set_workerQuit {| buf := buf (workerQuit w) ++ [true];
                                         cap := cap (workerQuit w);
                                         closed := closed (workerQuit w) |} w))
            |> emit (EvSendWorkerQuit ByPanic name)
            |> set_calls (<[k := (name, L51)]> (calls s))).
Proof.
  intros Hk Hw Hopen Hroom. unfold Panic_step, chan_send. rewrite Hk. simpl.
  rewrite Hw. simpl. rewrite Hopen. by rewrite decide_True.
Qed.

Lemma Panic_step_51 k s name w :
  calls s !! k = Some (name, L51) →
  workers (mgr s) !! name = Some w →
  closed (stop w) = false →
  Panic_step k s
  = Some (s |> upd (set_worker name
                      (set_stop {| buf := buf (stop w); cap := cap (stop w);
                                   closed := true |} w))
            |> emit (EvCloseStop name)
            |> set_calls (<[k := (name, Returned)]> (calls s))).
Proof.
  intros Hk Hw Hopen. unfold Panic_step, chan_close. rewrite Hk. simpl.
  rewrite Hw. simpl. by rewrite Hopen.
Qed.

(** Inside a [case] of the [select], [Run] does not look at the failure
    sink. *)
Lemma Run_step_sink_frame case_ order c s :
  run_pc s ≠ PcSelect →
  Run_step case_ order (upd (set_panic c) s)
  = upd (set_panic c) <$> Run_step case_ order s.
Proof.
  intros Hpc. destruct s as [m pc cs st tr cr]. unfold Run_step. simpl in *.
  destruct pc as [ | [|n t] | | [|n t] | n t | p [|n t] | [|n t] | n t | via [|n t] | via ];
    simpl; try done.
  all: try (unfold is_order; simpl; by case_match).
  all: try (destruct (workers m !! n) as [w|]; simpl; [|done]).
  all: try (by destruct (chan_send (stop w) true)).
  all: try (by destruct (isPaniced w)).
  all: try (by destruct (chan_recv false (workerQuit w))).
Qed.

(** * The shutdown protocol *)

(** C8, as the code has it.  In every state of every run the failure sink
    holds at most one report (it is what was reported and not yet
    drained); while it holds one, an activation of [Panic] that stands
    before its send cannot move; [Run] drains one report per shutdown, and
    from the drain to the quit signal it does not look at the sink. *)
Theorem failure_sink_holds_one_report
    regs ids0 names ids m0 sigs ls s :
  AddUnits regs ids0 NewManager = Ok (names, ids, m0) →
  run ls (initial (ShutdownOn sigs m0)) = Some s →
  length (buf (panic (mgr s))) ≤ 1
  ∧ length (buf (panic (mgr s))) + occ is_drain (trace s) = occ is_report (trace s)
  ∧ (length (buf (panic (mgr s))) = 1 →
     ∀ k name err, calls s !! k = Some (name, L48 err) → step (LPanicStep k) s = None)
  ∧ occ (is_quit OnPanic) (trace s) ≤ occ is_drain (trace s)
  ∧ occ is_drain (trace s) ≤ occ (is_quit OnPanic) (trace s) + 1
  ∧ (∀ case_ order c, run_pc s ≠ PcSelect →
       Run_step case_ order (upd (set_panic c) s)
       = upd (set_panic c) <$> Run_step case_ order s).
Proof.
  intros Hok Hrun.
  destruct (run_invariants _ _ _ _ _ _ _ _ Hok Hrun) as (HR & HB & _).
  destruct HR as [_ _ _ _ Hpp _ _ _ _ _ _].
  destruct (buf_sink _ HB) as (Hopen & Hcap & Hlen & Hacc).
  split; [done|]. split; [done|]. split; [|split; [|split]].
  - intros Hfull k name err Hk. unfold step, Panic_step.
    destruct (crashed s); [done|]. rewrite Hk. simpl.
    destruct (workers (mgr s) !! name); simpl; [|done].
    unfold chan_send. rewrite Hopen, Hcap, Hfull. done.
  - lia.
  - rewrite Hpp. destruct (run_pc s); simpl; repeat case_bool_decide; lia.
  - intros. by apply Run_step_sink_frame.
Qed.

Lemma failure_sink_holds_one_report_witness :
  length (buf (panic (mgr (after demo_two_failures (ShutdownOn [SIGINT] demo_mgr))))) ≤ 1
  ∧ occ is_report (trace (after demo_two_failures (ShutdownOn [SIGINT] demo_mgr))) = 1.
Proof.
  assert (run demo_two_failures (initial (ShutdownOn [SIGINT] demo_mgr))
          = Some (after demo_two_failures (ShutdownOn [SIGINT] demo_mgr))) as Hrun.
  { apply after_run, (bool_decide_unpack _). vm_compute. reflexivity. }
  split.
  - exact (proj1 (failure_sink_holds_one_report
                    demo_regs genID demo_names demo_ids demo_mgr [SIGINT]
                    demo_two_failures _ demo_setup_Ok Hrun)).
  - vm_compute. reflexivity.
Defined.

(** C8, as stated, fails: with two units failing at once the sink holds
    the one report of [w1], and [w2], which stands before its send, is
    blocked. *)
Lemma failure_sink_never_holds_two_reports :
  buf (panic (mgr (after demo_two_failures (ShutdownOn [SIGINT] demo_mgr))))
    = [Some "boom"]
  ∧ calls (after demo_two_failures (ShutdownOn [SIGINT] demo_mgr)) !! 1%nat
    = Some (w2, L48 (Some "bang"))
  ∧ step (LPanicStep 1) (after demo_two_failures (ShutdownOn [SIGINT] demo_mgr)) = None.
Proof. vm_compute. repeat split. Qed.

(** A second failure can end the process before quit is signalled: [Run]
    sends on the stop channel that the late failing unit has closed. *)
Example Run_dies_on_late_failure :
  crashed (after demo_late_failure (ShutdownOn [SIGINT] demo_mgr)) = true
  ∧ run_pc (after demo_late_failure (ShutdownOn [SIGINT] demo_mgr)) = PcPanSend w2 []
  ∧ occ (is_quit OnPanic) (trace (after demo_late_failure (ShutdownOn [SIGINT] demo_mgr))) = 0.
Proof. vm_compute. repeat split. Qed.

(** C6.  At the [select], a signal that is not among the armed ones is
    received and dropped: [Run] stays at the [select]; nothing is sent on
    any stop channel or on [Quit]; the only thing that happens is the
    receive. *)
Theorem Run_ignores_unarmed_signal s sig rest order :
  crashed s = false →
  run_pc s = PcSelect →
  buf (signalIn (mgr s)) = sig :: rest →
  in_ (shutdownSigs (mgr s)) sig = false →
  ∃ s', step (LRun OnSignal order) s = Some s' ∧
    run_pc s' = PcSelect ∧ crashed s' = false ∧
    trace s' = EvRecvSignal sig false :: trace s ∧
    buf (signalIn (mgr s')) = rest ∧
    workers (mgr s') = workers (mgr s) ∧
    Quit (mgr s') = Quit (mgr s) ∧
    panic (mgr s') = panic (mgr s) ∧
    shutdownSigs (mgr s') = shutdownSigs (mgr s) ∧
    calls s' = calls s ∧ started s' = started s.
Proof.
  intros Hcr Hpc Hbuf Hin. destruct s as [m pc cs st tr cr]. simpl in *. subst.
  unfold step, Run_step. simpl. unfold chan_recv. rewrite Hbuf, Hin. simpl.
  eexists. split; [reflexivity|]. simpl. done.
Qed.

Lemma Run_ignores_unarmed_signal_witness :
  ∃ s', step (LRun OnSignal [])
          (after demo_unarmed_signal (ShutdownOn [SIGINT] demo_mgr)) = Some s' ∧
    run_pc s' = PcSelect ∧
    trace s' = EvRecvSignal SIGHUP false
                 :: trace (after demo_unarmed_signal (ShutdownOn [SIGINT] demo_mgr)).
Proof.
  destruct (Run_ignores_unarmed_signal
              (after demo_unarmed_signal (ShutdownOn [SIGINT] demo_mgr)) SIGHUP [] [])
    as (s' & Hstep & Hpc & _ & Htr & _).
  - vm_compute. reflexivity.
  - vm_compute. reflexivity.
  - vm_compute. reflexivity.
  - vm_compute. reflexivity.
  - exists s'. split; [exact Hstep|]. split; [exact Hpc|exact Htr].
Defined.

(** C10.  With no unit registered, an armed signal takes [Run] through
    the two empty loops to the quit send and back to the [select]: [Quit]
    holds one value, and nothing else was sent. *)
Theorem Run_without_units_quits (sigs : list Signal) (sig : Signal) :
  sig ∈ sigs →
  ∃ s,
    run [next; next; LNotify sig; next; next; next; next]
      (initial (ShutdownOn sigs NewManager)) = Some s ∧
    run_pc s = PcSelect ∧ crashed s = false ∧
    buf (Quit (mgr s)) = [true] ∧
    trace s =
      [EvSendQuit OnSignal;
       EvLog "All workers have shutdown, shutting down manager ...";
       EvLog "shutting event received ... ";
       EvRecvSignal sig true;
       EvNotify sig true;
       EvLog "Starting manager ..."].
Proof.
  intros Hsig.
  assert (in_ sigs sig = true) as Hin by by apply bool_decide_eq_true_2.
  eexists. split.
  - unfold next.
    erewrite run_cons;
      [|rewrite step_LRun by done; apply Run_step_Entry; [done|by apply is_order_nil]].
    erewrite run_cons;
      [|rewrite step_LRun by done; by apply Run_step_Start_nil].
    erewrite run_cons; [|reflexivity].
    erewrite run_cons;
      [|rewrite step_LRun by done;
        apply (Run_step_Select_armed _ _ sig []); [done|done|exact Hin|by apply is_order_nil]].
    erewrite run_cons;
      [|rewrite step_LRun by done; apply Run_step_SigStop_nil; [done|by apply is_order_nil]].
    erewrite run_cons;
      [|rewrite step_LRun by done; by apply Run_step_Wait_nil].
    erewrite run_cons;
      [|rewrite step_LRun by done; apply Run_step_Quit; [done|done|simpl; lia]].
    reflexivity.
  - repeat split.
Qed.

Lemma Run_without_units_quits_witness :
  ∃ s,
    run [next; next; LNotify SIGINT; next; next; next; next]
      (initial (ShutdownOn [SIGINT] NewManager)) = Some s ∧
    run_pc s = PcSelect ∧ buf (Quit (mgr s)) = [true].
Proof.
  destruct (Run_without_units_quits [SIGINT] SIGINT) as (s & Hrun & Hpc & _ & Hq & _).
  - apply list_elem_of_here.
  - exists s. split; [exact Hrun|]. split; [exact Hpc|exact Hq].
Defined.

(** C3.  (1) An activation of [Panic] that is not held up sends the error
    to the failure sink, then sets the flag, then signals done, then
    closes the stop channel, and returns.  (2) In every state of every
    run, whatever the interleaving, each unit's closes are at most its
    done signals from [Panic], these at most its flag writes, these at
    most its reports; a set flag means the unit has reported, a closed
    stop channel that it has signalled done.  (3) At line 111 [Run] reads
    the unit's flag and goes on according to it alone: to the send of
    line 112 when it is unset, to the next unit when it is set. *)
Theorem Panic_effects_in_order :
  (∀ s k n err w,
     crashed s = false →
     calls s !! k = Some (n, L48 err) →
     workers (mgr s) !! n = Some w →
     closed (panic (mgr s)) = false →
     length (buf (panic (mgr s))) < cap (panic (mgr s)) →
     closed (workerQuit w) = false →
     length (buf (workerQuit w)) < cap (workerQuit w) →
     closed (stop w) = false →
     ∃ s',
       run [LPanicStep k; LPanicStep k; LPanicStep k; LPanicStep k] s = Some s' ∧
       trace s' = EvCloseStop n :: EvSendWorkerQuit ByPanic n
                    :: EvSetPaniced n :: EvSendPanic n err :: trace s ∧
       calls s' !! k = Some (n, Returned) ∧
       buf (panic (mgr s')) = buf (panic (mgr s)) ++ [err] ∧
       ∃ w', workers (mgr s') !! n = Some w' ∧
         isPaniced w' = true ∧
         buf (workerQuit w') = buf (workerQuit w) ++ [true] ∧
         closed (stop w') = true ∧ buf (stop w') = buf (stop w))
  ∧ (∀ regs ids0 names ids m0 sigs ls s n,
       AddUnits regs ids0 NewManager = Ok (names, ids, m0) →
       run ls (initial (ShutdownOn sigs m0)) = Some s →
       occ (is_close_stop n) (trace s) ≤ occ (is_done_by_panic n) (trace s) ∧
       occ (is_done_by_panic n) (trace s) ≤ occ (is_set_paniced n) (trace s) ∧
       occ (is_set_paniced n) (trace s) ≤ occ (is_send_panic n) (trace s) ∧
       ∀ w, workers (mgr s) !! n = Some w →
         (isPaniced w = true → 1 ≤ occ (is_send_panic n) (trace s)) ∧
         (closed (stop w) = true → 1 ≤ occ (is_done_by_panic n) (trace s)))
  ∧ (∀ s n todo w case_ order,
       crashed s = false →
       run_pc s = PcPanStop (n :: todo) →
       workers (mgr s) !! n = Some w →
       ∃ s', step (LRun case_ order) s = Some s' ∧
         trace s' = EvIsPaniced n (isPaniced w)
                      :: EvLog ("shuting down <" +:+ n +:+ ">" +:+ nl) :: trace s ∧
         run_pc s' = (if isPaniced w then PcPanStop todo else PcPanSend n todo) ∧
         mgr s' = mgr s).
Proof.
  split; [|split].
  - intros s k n err w Hcr Hk Hw Hpo Hpr Hqo Hqr Hso.
    assert (k < length (calls s)) as Hlt by by eapply lookup_lt_Some.
    eexists. split.
    { erewrite run_cons;
        [|rewrite step_LPanicStep by done; by eapply Panic_step_48].
      erewrite run_cons;
        [|rewrite step_LPanicStep by done; eapply Panic_step_49;
          [simpl; by apply list_lookup_insert_eq|exact Hw]].
      erewrite run_cons;
        [|rewrite step_LPanicStep by done; eapply Panic_step_50;
          [simpl; apply list_lookup_insert_eq; by rewrite length_insert
          |simpl; apply lookup_insert_eq|exact Hqo|exact Hqr]].
      erewrite run_cons;
        [|rewrite step_LPanicStep by done; eapply Panic_step_51;
          [simpl; apply list_lookup_insert_eq; by rewrite !length_insert
          |simpl; apply lookup_insert_eq|exact Hso]].
      reflexivity. }
    simpl. split; [done|]. split.
    { apply list_lookup_insert_eq. by rewrite !length_insert. }
    split; [done|]. eexists. split; [apply lookup_insert_eq|]. done.
  - intros regs ids0 names ids m0 sigs ls s n Hok Hrun.
    destruct (run_invariants _ _ _ _ _ _ _ _ Hok Hrun) as (_ & HB & HP).
    destruct HP as [H49 H50 H51].
    specialize (H49 n). specialize (H50 n). specialize (H51 n).
    split; [lia|]. split; [lia|]. split; [lia|].
    intros w Hw. destruct (buf_flag _ HB n w Hw) as [Hf Hc].
    split; intros Ht; [specialize (Hf Ht)|specialize (Hc Ht)]; lia.
  - intros s n todo w case_ order Hcr Hpc Hw.
    rewrite step_LRun by done. unfold Run_step. rewrite Hpc, Hw. simpl.
    destruct (isPaniced w); simpl; eexists; (split; [reflexivity|done]).
Qed.

Lemma Panic_effects_in_order_witness :
  ∃ s',
    run [LPanicStep 0; LPanicStep 0; LPanicStep 0; LPanicStep 0]
      (after demo_panic_called (ShutdownOn [SIGINT] demo_mgr)) = Some s' ∧
    trace s' = EvCloseStop w1 :: EvSendWorkerQuit ByPanic w1
                 :: EvSetPaniced w1 :: EvSendPanic w1 (Some "boom")
                 :: trace (after demo_panic_called (ShutdownOn [SIGINT] demo_mgr)).
Proof.
  destruct (proj1 Panic_effects_in_order
              (after demo_panic_called (ShutdownOn [SIGINT] demo_mgr))
              0 w1 (Some "boom")
              {| stop := make_chan 1; workerQuit := make_chan 1;
                 unit := Worker; isPaniced := false |})
    as (s' & Hrun & Htr & _).
  - vm_compute. reflexivity.
  - vm_compute. reflexivity.
  - vm_compute. reflexivity.
  - vm_compute. reflexivity.
  - vm_compute. lia.
  - reflexivity.
  - vm_compute. lia.
  - reflexivity.
  - exists s'. split; [exact Hrun|exact Htr].
Defined.

(** ** The further invariants are kept by every move *)

Ltac chan_fin H1 H2 :=
  try (let n := fresh "n" in let w := fresh "w" in let Hw := fresh "Hw" in
       intros n w Hw; simpl in *; lookup_cases);
  simpl in *; use_inv H1 H2; destruct_and?;
  simpl in *; rewrite ?length_app in *; simpl in *;
  repeat case_bool_decide; simplify_eq; simpl in *;
  repeat match goal with
  | H : buf _ = _ |- _ => rewrite H in *
  | H : closed _ = closed _ |- _ => rewrite H in *
  | H : cap _ = cap _ |- _ => rewrite H in *
  | H : Forall _ (_ :: _) |- _ => apply Forall_cons in H as [? ?]
  end; simpl in *; simplify_eq;
  repeat match goal with |- _ ∧ _ => split end;
  try done; try congruence; try lia;
  try (apply Forall_app; split; [done|by repeat constructor]);
  try (constructor; [done|done]);
  try (intros; congruence); try (intros; lia);
  try (intuition congruence); try (intuition lia);
  try (repeat (apply Forall_cons; split; [simpl; try done|]); try done;
       match goal with
       | H : in_ _ _ = true |- _ => by apply bool_decide_eq_true in H
       end).

Lemma Chan_inv_step sigs l s s' : Chan_inv sigs s → step l s = Some s' → Chan_inv sigs s'.
Proof.
  intros [Hsigs Harmed HQ HS Hstop Hdone] Hstep.
  destruct s as [m pc cs st tr cr]; simpl in *.
  unfold step in Hstep; simpl in Hstep.
  destruct cr; [done|].
  destruct l; simpl in Hstep.
  - unfold Run_step in Hstep; simpl in Hstep.
    destruct pc as [ | [|n t] | | [|n t] | n t | p [|n t] | [|n t] | n t | via [|n t] | via ];
      simpl in *; step_cases Hstep; simplify_eq; order_facts; chan_facts.
    all: constructor; simpl; chan_fin Hstop Hdone.
  - step_cases Hstep; simplify_eq; chan_facts; constructor; simpl; chan_fin Hstop Hdone.
  - step_cases Hstep; simplify_eq; chan_facts; constructor; simpl; chan_fin Hstop Hdone.
  - step_cases Hstep; simplify_eq; chan_facts; constructor; simpl; chan_fin Hstop Hdone.
  - step_cases Hstep; simplify_eq; chan_facts; constructor; simpl; chan_fin Hstop Hdone.
  - unfold Panic_step in Hstep; simpl in Hstep.
    step_cases Hstep; simplify_eq; chan_facts; constructor; simpl; chan_fin Hstop Hdone.
  - step_cases Hstep; simplify_eq; chan_facts; constructor; simpl; chan_fin Hstop Hdone.
Qed.

Ltac start_fin :=
  simpl in *;
  repeat match goal with
  | |- ∀ _, _ => intro
  | H : is_started _ _ = true |- _ => apply bool_decide_eq_true in H; simpl in H
  | H : _ ∈ _ :: _ |- _ => apply elem_of_cons in H as [->|H]
  | H : (_ ++ [_]) !! _ = Some _ |- _ =>
      apply lookup_app_Some in H as [H|[_ H]];
        [|apply list_lookup_singleton_Some in H as [_ H]; simplify_eq]
  | H : <[_ := _]> _ !! _ = Some _ |- _ =>
      apply list_lookup_insert_Some in H as [(-> & ? & _)|[_ H]]; simplify_eq
  end;
  simpl in *; repeat case_bool_decide; simplify_eq; simpl in *;
  try done; try lia;
  try (by eauto using list_elem_of_here, list_elem_of_further);
  try (apply elem_of_cons; right; eauto; fail);
  try (match goal with H : ∀ n, _ ∈ _ → _ |- _ ≤ _ =>
         etrans; [apply H; eauto|lia] end).

Lemma Start_inv_step l s s' : Start_inv s → step l s = Some s' → Start_inv s'.
Proof.
  intros [Hgo Hcalls Hact] Hstep.
  destruct s as [m pc cs st tr cr]; simpl in *.
  unfold step in Hstep; simpl in Hstep.
  destruct cr; [done|].
  destruct l; simpl in Hstep.
  - unfold Run_step in Hstep; simpl in Hstep.
    destruct pc as [ | [|n t] | | [|n t] | n t | p [|n t] | [|n t] | n t | via [|n t] | via ];
      simpl in *; step_cases Hstep; simplify_eq; constructor; start_fin.
  - step_cases Hstep; simplify_eq; constructor; start_fin.
  - step_cases Hstep; simplify_eq; constructor; start_fin.
  - step_cases Hstep; simplify_eq; constructor; start_fin.
  - step_cases Hstep; simplify_eq; constructor; start_fin.
  - unfold Panic_step in Hstep; simpl in Hstep.
    step_cases Hstep; simplify_eq; constructor; start_fin.
  - step_cases Hstep; simplify_eq; constructor; start_fin.
Qed.

Lemma AddUnits_sigs regs : ∀ ids m names ids' m',
  AddUnits regs ids m = Ok (names, ids', m') → shutdownSigs m' = shutdownSigs m.
Proof.
  induction regs as [|[u name] regs IH]; simpl; intros ids m names ids' m' Hok.
  - by simplify_eq.
  - destruct (AddUnit u name ids m) as [[[n0 ids0] m0]|] eqn:E0; [|done].
    destruct (AddUnits regs ids0 m0) as [[[ns ids1] m1]|] eqn:E1; [|done].
    simplify_eq. rewrite (IH _ _ _ _ _ E1).
    by apply AddUnit_Ok in E0 as (cls & _ & -> & -> & ->).
Qed.

Lemma Chan_inv_initial m : fresh m → Chan_inv (shutdownSigs m) (initial m).
Proof.
  intros [Hp HQ HS Hw]. constructor; simpl.
  - done.
  - constructor.
  - rewrite HQ. simpl. repeat split; lia.
  - rewrite HS. simpl. repeat split; lia.
  - intros n w Hn. destruct (Hw n w Hn) as (-> & _ & _). simpl.
    split; [done|]. split; [lia|]. split; [done|]. split; [constructor|].
    split; lia.
  - intros n w Hn. destruct (Hw n w Hn) as (_ & -> & _). simpl. split; [done|lia].
Qed.

Lemma Start_inv_initial m : Start_inv (initial m).
Proof.
  constructor; simpl.
  - intros n Hn. by apply elem_of_nil in Hn.
  - intros k n l Hk. by rewrite lookup_nil in Hk.
  - intros n. lia.
Qed.

(** Every state of every run satisfies the two further invariants. *)
Lemma run_invariants_more regs ids0 names ids m0 sigs ls s :
  AddUnits regs ids0 NewManager = Ok (names, ids, m0) →
  run ls (initial (ShutdownOn sigs m0)) = Some s →
  Chan_inv sigs s ∧ Start_inv s.
Proof.
  intros Hok Hrun. split.
  - eapply run_invariant; [apply Chan_inv_step| |done].
    assert (sigs = shutdownSigs (ShutdownOn sigs m0)) as Hs.
    { simpl. by rewrite (AddUnits_sigs _ _ _ _ _ _ Hok). }
    rewrite Hs at 1. apply Chan_inv_initial, fresh_ShutdownOn.
    eapply fresh_AddUnits; [apply fresh_NewManager|done].
  - eapply run_invariant; [apply Start_inv_step|apply Start_inv_initial|done].
Qed.

Lemma registered_lookup regs ids0 names ids m0 sigs ls s n :
  AddUnits regs ids0 NewManager = Ok (names, ids, m0) →
  run ls (initial (ShutdownOn sigs m0)) = Some s →
  n ∈ names → ∃ w, workers (mgr s) !! n = Some w.
Proof.
  intros Hok Hrun Hn.
  destruct (run_invariants _ _ _ _ _ _ _ _ Hok Hrun) as (HR & _ & _).
  apply (elem_of_dom (workers (mgr s))). rewrite (inv_dom _ _ HR).
  by apply elem_of_list_to_set.
Qed.

(** * Further properties of the program *)

(** X1.  In every state of every run, for every registered unit [n]: on
    the signal path [Run] has sent [n] at most one stop notification per
    armed signal received, whether or not [n] is flagged; it has received
    done signals there only after the send loop has dealt with [n]; and
    whenever [Run] is back at its [select], [n] has been sent exactly one
    stop notification per armed signal. *)
Theorem Run_signal_shutdown_stops_every_unit
    regs ids0 names ids m0 sigs ls s n :
  AddUnits regs ids0 NewManager = Ok (names, ids, m0) →
  run ls (initial (ShutdownOn sigs m0)) = Some s →
  n ∈ names →
  occ (is_stop OnSignal n) (trace s) ≤ occ is_armed (trace s)
  ∧ occ is_armed (trace s) ≤ occ (is_stop OnSignal n) (trace s) + 1
  ∧ (∀ m, m ∈ names →
       occ (is_wait OnSignal m) (trace s) ≤ occ (is_stop OnSignal n) (trace s))
  ∧ (run_pc s = PcSelect →
       occ (is_stop OnSignal n) (trace s) = occ is_armed (trace s)).
Proof.
  intros Hok Hrun Hn.
  destruct (run_invariants _ _ _ _ _ _ _ _ Hok Hrun) as (HR & _ & _).
  destruct HR as [_ _ _ Hps _ Hws _ Hsig _ _ _].
  assert (∀ x, x ∈ names → x ∈ (list_to_set names : gset string)) as HD
    by (intros x ?; by apply elem_of_list_to_set).
  specialize (Hsig n (HD n Hn)).
  split; [lia|]. split; [|split].
  - destruct (run_pc s); simpl in *; repeat case_bool_decide; lia.
  - intros m Hm. specialize (Hws m (HD m Hm)).
    destruct (run_pc s); simpl in *; repeat case_bool_decide; simplify_eq;
      simpl in *; lia.
  - intros Hpc. rewrite Hpc in Hsig. simpl in Hsig. lia.
Qed.

Lemma Run_signal_shutdown_stops_every_unit_witness :
  occ (is_stop OnSignal w1)
    (trace (after demo_signal_shutdown (ShutdownOn [SIGINT] demo_mgr))) = 1
  ∧ occ (is_stop OnSignal w2)
      (trace (after demo_signal_shutdown (ShutdownOn [SIGINT] demo_mgr))) = 1.
Proof.
  assert (run demo_signal_shutdown (initial (ShutdownOn [SIGINT] demo_mgr))
          = Some (after demo_signal_shutdown (ShutdownOn [SIGINT] demo_mgr))) as Hrun.
  { apply after_run, (bool_decide_unpack _). vm_compute. reflexivity. }
  assert (run_pc (after demo_signal_shutdown (ShutdownOn [SIGINT] demo_mgr)) = PcSelect)
    as Hpc by (vm_compute; reflexivity).
  assert (occ is_armed (trace (after demo_signal_shutdown (ShutdownOn [SIGINT] demo_mgr))) = 1)
    as Harmed by (vm_compute; reflexivity).
  assert (w1 ∈ demo_names) as Hw1 by (rewrite demo_names_eq; apply list_elem_of_here).
  assert (w2 ∈ demo_names) as Hw2
    by (rewrite demo_names_eq; apply list_elem_of_further, list_elem_of_here).
  destruct (Run_signal_shutdown_stops_every_unit
              demo_regs genID demo_names demo_ids demo_mgr [SIGINT]
              demo_signal_shutdown _ w1 demo_setup_Ok Hrun Hw1) as (_ & _ & _ & H1).
  destruct (Run_signal_shutdown_stops_every_unit
              demo_regs genID demo_names demo_ids demo_mgr [SIGINT]
              demo_signal_shutdown _ w2 demo_setup_Ok Hrun Hw2) as (_ & _ & _ & H2).
  specialize (H1 Hpc). specialize (H2 Hpc). clear Hrun.
  remember (after demo_signal_shutdown (ShutdownOn [SIGINT] demo_mgr)) as s eqn:Hs.
  clear Hs. split; lia.
Defined.

(** X2.  What a unit gets from [ShouldStop()].  In every state of every
    run, for every registered unit [n]: [n] has received [true] at most as
    often as [Run] has sent it a stop notification; it has received the
    zero value only after its own [Panic] closed the channel; and once the
    channel is closed, the unit (if the process is alive) can receive from
    it again and again. *)
Theorem ShouldStop_yields_only_what_was_sent
    regs ids0 names ids m0 sigs ls s n :
  AddUnits regs ids0 NewManager = Ok (names, ids, m0) →
  run ls (initial (ShutdownOn sigs m0)) = Some s →
  n ∈ names →
  occ (is_should_stop true n) (trace s)
    ≤ occ (is_stop OnSignal n) (trace s) + occ (is_stop OnPanic n) (trace s)
  ∧ (1 ≤ occ (is_should_stop false n) (trace s) →
     1 ≤ occ (is_close_stop n) (trace s))
  ∧ (1 ≤ occ (is_close_stop n) (trace s) → n ∈ started s → crashed s = false →
     ∃ s', step (LShouldStop n) s = Some s').
Proof.
  intros Hok Hrun Hn.
  destruct (registered_lookup _ _ _ _ _ _ _ _ _ Hok Hrun Hn) as [w Hw].
  destruct (run_invariants _ _ _ _ _ _ _ _ Hok Hrun) as (_ & HB & _).
  destruct (run_invariants_more _ _ _ _ _ _ _ _ Hok Hrun) as (HC & _).
  destruct (ci_stop _ _ HC n w Hw) as (_ & _ & Hacc & _ & Hzero & Hclosed).
  destruct (buf_flag _ HB n w Hw) as [_ Hcl].
  split; [lia|]. split; [auto|].
  intros Hc Hst Hcr. unfold step. rewrite Hcr.
  unfold is_started. rewrite bool_decide_eq_true_2 by done.
  rewrite Hw. simpl. unfold chan_recv. rewrite (Hclosed Hc).
  destruct (buf (stop w)); eauto.
Qed.

Lemma ShouldStop_yields_only_what_was_sent_witness :
  occ (is_should_stop true w2)
    (trace (after demo_failure_shutdown (ShutdownOn [SIGINT] demo_mgr))) = 1
  ∧ ∃ s', step (LShouldStop w1)
            (after demo_failure_shutdown (ShutdownOn [SIGINT] demo_mgr)) = Some s'.
Proof.
  assert (run demo_failure_shutdown (initial (ShutdownOn [SIGINT] demo_mgr))
          = Some (after demo_failure_shutdown (ShutdownOn [SIGINT] demo_mgr))) as Hrun.
  { apply after_run, (bool_decide_unpack _). vm_compute. reflexivity. }
  assert (w1 ∈ demo_names) as Hw1 by (rewrite demo_names_eq; apply list_elem_of_here).
  split; [vm_compute; reflexivity|].
  apply (ShouldStop_yields_only_what_was_sent
           demo_regs genID demo_names demo_ids demo_mgr [SIGINT]
           demo_failure_shutdown _ w1 demo_setup_Ok Hrun Hw1).
  - vm_compute. lia.
  - apply (bool_decide_unpack _). vm_compute. reflexivity.
  - vm_compute. reflexivity.
Defined.

(** X3.  When [Run] stands before a stop send for [n] (line 87 or line
    112) in a state of a run, it is blocked exactly when the channel is
    open and still holds a notification that [n] has not received. *)
Theorem Run_stop_send_blocks_on_unread_stop
    regs ids0 names ids m0 sigs ls s n todo w case_ order :
  AddUnits regs ids0 NewManager = Ok (names, ids, m0) →
  run ls (initial (ShutdownOn sigs m0)) = Some s →
  crashed s = false →
  run_pc s = PcSigSend n todo ∨ run_pc s = PcPanSend n todo →
  workers (mgr s) !! n = Some w →
  step (LRun case_ order) s = None
  ↔ closed (stop w) = false ∧
    occ (is_should_stop true n) (trace s)
    < occ (is_stop OnSignal n) (trace s) + occ (is_stop OnPanic n) (trace s).
Proof.
  intros Hok Hrun Hcr Hpc Hw.
  destruct (run_invariants_more _ _ _ _ _ _ _ _ Hok Hrun) as (HC & _).
  destruct (ci_stop _ _ HC n w Hw) as (Hcap & Hlen & Hacc & _).
  rewrite step_LRun by done. unfold Run_step.
  destruct Hpc as [-> | ->]; rewrite Hw; simpl; unfold chan_send;
    destruct (closed (stop w)); (split; [try done|intros [? ?]; try done]);
    case_decide; try done; try lia; (split; [done|lia]).
Qed.

Lemma Run_stop_send_blocks_on_unread_stop_witness :
  run_pc (after demo_unread_stop (ShutdownOn [SIGINT] demo_mgr)) = PcSigSend w1 [w2]
  ∧ step next (after demo_unread_stop (ShutdownOn [SIGINT] demo_mgr)) = None.
Proof.
  assert (run demo_unread_stop (initial (ShutdownOn [SIGINT] demo_mgr))
          = Some (after demo_unread_stop (ShutdownOn [SIGINT] demo_mgr))) as Hrun.
  { apply after_run, (bool_decide_unpack _). vm_compute. reflexivity. }
  assert (run_pc (after demo_unread_stop (ShutdownOn [SIGINT] demo_mgr))
          = PcSigSend w1 [w2]) as Hpc by (vm_compute; reflexivity).
  split; [exact Hpc|].
  apply (Run_stop_send_blocks_on_unread_stop
           demo_regs genID demo_names demo_ids demo_mgr [SIGINT]
           demo_unread_stop _ w1 [w2]
           {| stop := {| buf := [true]; cap := 1; closed := false |};
              workerQuit := make_chan 1; unit := Worker; isPaniced := false |}
           OnSignal [] demo_setup_Ok Hrun).
  - vm_compute. reflexivity.
  - left. exact Hpc.
  - vm_compute. reflexivity.
  - split; [reflexivity|]. vm_compute. lia.
Defined.

(** X4.  The signal path does not look at the flag: when [Run] stands
    before a stop send (line 87, or line 112 after a late failure) for a
    unit whose [Panic] has closed the stop channel, its next step is the
    run-time panic of a send on a closed channel, which ends the
    process. *)
Theorem Run_dies_sending_stop_to_failed_unit
    regs ids0 names ids m0 sigs ls s n todo case_ order :
  AddUnits regs ids0 NewManager = Ok (names, ids, m0) →
  run ls (initial (ShutdownOn sigs m0)) = Some s →
  n ∈ names →
  crashed s = false →
  run_pc s = PcSigSend n todo ∨ run_pc s = PcPanSend n todo →
  1 ≤ occ (is_close_stop n) (trace s) →
  step (LRun case_ order) s = Some (crash s).
Proof.
  intros Hok Hrun Hn Hcr Hpc Hcl.
  destruct (registered_lookup _ _ _ _ _ _ _ _ _ Hok Hrun Hn) as [w Hw].
  destruct (run_invariants_more _ _ _ _ _ _ _ _ Hok Hrun) as (HC & _).
  destruct (ci_stop _ _ HC n w Hw) as (_ & _ & _ & _ & _ & Hclosed).
  rewrite step_LRun by done. unfold Run_step.
  destruct Hpc as [-> | ->]; rewrite Hw; simpl; unfold chan_send;
    by rewrite (Hclosed Hcl).
Qed.

Lemma Run_dies_sending_stop_to_failed_unit_witness :
  run_pc (after demo_signal_after_failure (ShutdownOn [SIGINT] demo_mgr))
    = PcSigSend w1 [w2]
  ∧ step next (after demo_signal_after_failure (ShutdownOn [SIGINT] demo_mgr))
    = Some (crash (after demo_signal_after_failure (ShutdownOn [SIGINT] demo_mgr))).
Proof.
  assert (run demo_signal_after_failure (initial (ShutdownOn [SIGINT] demo_mgr))
          = Some (after demo_signal_after_failure (ShutdownOn [SIGINT] demo_mgr))) as Hrun.
  { apply after_run, (bool_decide_unpack _). vm_compute. reflexivity. }
  assert (run_pc (after demo_signal_after_failure (ShutdownOn [SIGINT] demo_mgr))
          = PcSigSend w1 [w2]) as Hpc by (vm_compute; reflexivity).
  assert (w1 ∈ demo_names) as Hw1 by (rewrite demo_names_eq; apply list_elem_of_here).
  split; [exact Hpc|].
  apply (Run_dies_sending_stop_to_failed_unit
           demo_regs genID demo_names demo_ids demo_mgr [SIGINT]
           demo_signal_after_failure _ w1 [w2] OnSignal [] demo_setup_Ok Hrun Hw1).
  - vm_compute. reflexivity.
  - left. exact Hpc.
  - vm_compute. lia.
Defined.

(** X5.  [Done] on a started unit of a live process blocks exactly while
    an earlier done signal of the unit (from [Done] or from [Panic]) has
    not yet been received by [Run]; otherwise it goes through and the
    signal is recorded. *)
Theorem Done_blocks_while_done_is_pending
    regs ids0 names ids m0 sigs ls s n :
  AddUnits regs ids0 NewManager = Ok (names, ids, m0) →
  run ls (initial (ShutdownOn sigs m0)) = Some s →
  n ∈ names → n ∈ started s → crashed s = false →
  (step (LDone n) s = None
   ↔ occ (is_wait OnSignal n) (trace s) + occ (is_wait OnPanic n) (trace s)
     < occ (is_done n) (trace s))
  ∧ (occ (is_done n) (trace s)
     = occ (is_wait OnSignal n) (trace s) + occ (is_wait OnPanic n) (trace s) →
     ∃ s', step (LDone n) s = Some s' ∧
       trace s' = EvSendWorkerQuit ByDone n :: trace s ∧ run_pc s' = run_pc s).
Proof.
  intros Hok Hrun Hn Hst Hcr.
  destruct (registered_lookup _ _ _ _ _ _ _ _ _ Hok Hrun Hn) as [w Hw].
  destruct (run_invariants _ _ _ _ _ _ _ _ Hok Hrun) as (_ & HB & _).
  destruct (run_invariants_more _ _ _ _ _ _ _ _ Hok Hrun) as (HC & _).
  destruct (buf_done _ HB n w Hw) as [Hopen Hacc].
  destruct (ci_done _ _ HC n w Hw) as [Hcap Hlen].
  unfold step. rewrite Hcr. unfold is_started.
  rewrite bool_decide_eq_true_2 by done. rewrite Hw. simpl.
  unfold chan_send. rewrite Hopen. split.
  - case_decide; (split; [intros ?|intros ?]); try done; lia.
  - intros Heq. rewrite decide_True by lia. eexists. split; [reflexivity|done].
Qed.

Lemma Done_blocks_while_done_is_pending_witness :
  step (LDone w1) (after demo_done_pending (ShutdownOn [SIGINT] demo_mgr)) = None
  ∧ ∃ s', step (LDone w2) (after demo_done_pending (ShutdownOn [SIGINT] demo_mgr))
          = Some s'.
Proof.
  assert (run demo_done_pending (initial (ShutdownOn [SIGINT] demo_mgr))
          = Some (after demo_done_pending (ShutdownOn [SIGINT] demo_mgr))) as Hrun.
  { apply after_run, (bool_decide_unpack _). vm_compute. reflexivity. }
  assert (w1 ∈ demo_names) as Hw1 by (rewrite demo_names_eq; apply list_elem_of_here).
  assert (w2 ∈ demo_names) as Hw2
    by (rewrite demo_names_eq; apply list_elem_of_further, list_elem_of_here).
  split.
  - apply (proj1 (Done_blocks_while_done_is_pending
             demo_regs genID demo_names demo_ids demo_mgr [SIGINT]
             demo_done_pending _ w1 demo_setup_Ok Hrun Hw1
             ltac:(apply (bool_decide_unpack _); vm_compute; reflexivity)
             ltac:(vm_compute; reflexivity))).
    vm_compute. lia.
  - destruct (proj2 (Done_blocks_while_done_is_pending
             demo_regs genID demo_names demo_ids demo_mgr [SIGINT]
             demo_done_pending _ w2 demo_setup_Ok Hrun Hw2
             ltac:(apply (bool_decide_unpack _); vm_compute; reflexivity)
             ltac:(vm_compute; reflexivity))) as (s' & Hs' & _).
    + vm_compute. reflexivity.
    + exists s'. exact Hs'.
Defined.

(** X6.  What the caller gets from [Quit].  In every state of every run:
    the caller has received from [Quit] at most as often as [Run] has
    signalled quit, hence at most as often as each registered unit has
    signalled done; [Quit] holds at most one signal; and the caller's
    receive is blocked exactly when it has taken every quit signal sent
    so far. *)
Theorem caller_takes_quit_only_after_all_done
    regs ids0 names ids m0 sigs ls s :
  AddUnits regs ids0 NewManager = Ok (names, ids, m0) →
  run ls (initial (ShutdownOn sigs m0)) = Some s →
  occ is_caller_quit (trace s)
    ≤ occ (is_quit OnSignal) (trace s) + occ (is_quit OnPanic) (trace s)
  ∧ (∀ n, n ∈ names → occ is_caller_quit (trace s) ≤ occ (is_done n) (trace s))
  ∧ length (buf (Quit (mgr s))) ≤ 1
  ∧ (crashed s = false →
     (step LCallerQuit s = None
      ↔ occ is_caller_quit (trace s)
        = occ (is_quit OnSignal) (trace s) + occ (is_quit OnPanic) (trace s))).
Proof.
  intros Hok Hrun.
  destruct (run_invariants _ _ _ _ _ _ _ _ Hok Hrun) as (HR & HB & _).
  destruct (run_invariants_more _ _ _ _ _ _ _ _ Hok Hrun) as (HC & _).
  destruct (ci_Quit _ _ HC) as (Hopen & Hcap & Hlen & Hacc).
  split; [lia|]. split; [|split; [done|]].
  - intros n Hn.
    destruct (registered_lookup _ _ _ _ _ _ _ _ _ Hok Hrun Hn) as [w Hw].
    destruct (buf_done _ HB n w Hw) as [_ Hd].
    assert (n ∈ (list_to_set names : gset string)) as HnD
      by by apply elem_of_list_to_set.
    pose proof (inv_wait_sig _ _ HR n HnD). pose proof (inv_wait_pan _ _ HR n HnD).
    lia.
  - intros Hcr. unfold step. rewrite Hcr. unfold chan_recv. rewrite Hopen.
    destruct (buf (Quit (mgr s))); simpl in *; (split; [intros ?|intros ?]);
      try done; lia.
Qed.

Lemma caller_takes_quit_only_after_all_done_witness :
  occ is_caller_quit (trace (after demo_second_shutdown (ShutdownOn [SIGINT] demo_mgr)))
    ≤ occ (is_done w1) (trace (after demo_second_shutdown (ShutdownOn [SIGINT] demo_mgr)))
  ∧ occ is_caller_quit
      (trace (after demo_second_shutdown (ShutdownOn [SIGINT] demo_mgr))) = 1.
Proof.
  assert (run demo_second_shutdown (initial (ShutdownOn [SIGINT] demo_mgr))
          = Some (after demo_second_shutdown (ShutdownOn [SIGINT] demo_mgr))) as Hrun.
  { apply after_run, (bool_decide_unpack _). vm_compute. reflexivity. }
  assert (w1 ∈ demo_names) as Hw1 by (rewrite demo_names_eq; apply list_elem_of_here).
  split; [|vm_compute; reflexivity].
  exact (proj1 (proj2 (caller_takes_quit_only_after_all_done
           demo_regs genID demo_names demo_ids demo_mgr [SIGINT]
           demo_second_shutdown _ demo_setup_Ok Hrun)) w1 Hw1).
Defined.

(** X7.  What a step of [Run] never does.  Whatever the state: it changes
    no unit's flag, closes and reopens no channel, replaces no unit,
    changes neither the armed signals nor the activations of [Panic];
    it only appends to stop channels and to [Quit], and only takes from
    the front of done channels, of the failure sink and of the signal
    intake. *)
Theorem Run_step_touches_only_its_ends case_ order s s' :
  step (LRun case_ order) s = Some s' →
  shutdownSigs (mgr s') = shutdownSigs (mgr s)
  ∧ calls s' = calls s
  ∧ dom (workers (mgr s')) = dom (workers (mgr s))
  ∧ closed (Quit (mgr s')) = closed (Quit (mgr s))
  ∧ closed (panic (mgr s')) = closed (panic (mgr s))
  ∧ closed (signalIn (mgr s')) = closed (signalIn (mgr s))
  ∧ (∃ l, buf (Quit (mgr s')) = buf (Quit (mgr s)) ++ l)
  ∧ (∃ l, buf (panic (mgr s)) = l ++ buf (panic (mgr s')))
  ∧ (∃ l, buf (signalIn (mgr s)) = l ++ buf (signalIn (mgr s')))
  ∧ (∀ n w, workers (mgr s) !! n = Some w →
       ∃ w', workers (mgr s') !! n = Some w' ∧
         isPaniced w' = isPaniced w ∧ unit w' = unit w ∧
         closed (stop w') = closed (stop w) ∧
         closed (workerQuit w') = closed (workerQuit w) ∧
         (∃ l, buf (stop w') = buf (stop w) ++ l) ∧
         (∃ l, buf (workerQuit w) = l ++ buf (workerQuit w'))).
Proof.
  intros Hstep.
  destruct s as [m pc cs st tr cr]; simpl in *.
  unfold step in Hstep; simpl in Hstep.
  destruct cr; [done|].
  unfold Run_step in Hstep; simpl in Hstep.
  destruct pc as [ | [|n t] | | [|n t] | n t | p [|n t] | [|n t] | n t | via [|n t] | via ];
    simpl in *; step_cases Hstep; simplify_eq; chan_facts; simpl.
  all: repeat match goal with
       | H : buf _ = _ |- _ => rewrite H
       | H : closed _ = closed _ |- _ => rewrite H
       | H : closed _ = false |- _ => rewrite H
       end.
  all: repeat match goal with |- _ ∧ _ => split end; try done.
  all: try (apply dom_insert_lookup_L; eauto; fail).
  all: try (by exists []; rewrite ?app_nil_r).
  all: try (by eexists [_]).
  all: intros n' w' Hw'.
  all: try (destruct (decide (n = n')) as [->|Hne];
            [rewrite lookup_insert_eq; simplify_eq
            |rewrite lookup_insert_ne by done]).
  all: eexists; (split; [done|]); simpl.
  all: repeat match goal with
       | H : buf _ = _ |- _ => rewrite H
       | H : closed _ = closed _ |- _ => rewrite H
       | H : closed _ = false |- _ => rewrite H
       end.
  all: repeat match goal with |- _ ∧ _ => split end; try done.
  all: try (by exists []; rewrite ?app_nil_r).
  all: try (by eexists [_]).
Qed.

(** X8.  [Run] reacts to no signal but those given to [ShutdownOn]: in
    every state of every run, a signal that [Run] has received and found
    armed is one of them; so a manager for which [ShutdownOn] was given
    no signal never starts a shutdown on a signal. *)
Theorem Run_arms_only_ShutdownOn_signals
    regs ids0 names ids m0 sigs ls s :
  AddUnits regs ids0 NewManager = Ok (names, ids, m0) →
  run ls (initial (ShutdownOn sigs m0)) = Some s →
  shutdownSigs (mgr s) = sigs
  ∧ (∀ sig, EvRecvSignal sig true ∈ trace s → sig ∈ sigs)
  ∧ (sigs = [] →
     occ is_armed (trace s) = 0 ∧ occ (is_quit OnSignal) (trace s) = 0 ∧
     ∀ n, n ∈ names → occ (is_stop OnSignal n) (trace s) = 0).
Proof.
  intros Hok Hrun.
  destruct (run_invariants _ _ _ _ _ _ _ _ Hok Hrun) as (HR & _ & _).
  destruct (run_invariants_more _ _ _ _ _ _ _ _ Hok Hrun) as (HC & _).
  pose proof (ci_armed _ _ HC) as Harmed.
  split; [apply (ci_sigs _ _ HC)|]. split.
  - intros sig Hin. rewrite Forall_forall in Harmed. apply (Harmed _ Hin).
  - intros ->.
    assert (occ is_armed (trace s) = 0) as H0.
    { clear -Harmed. induction Harmed as [|e tr He _ IH]; [done|].
      simpl. rewrite IH. destruct e as [| |sig [|]| | | | | | | | | | | |]; simpl; try done.
      by apply elem_of_nil in He. }
    pose proof (inv_pass_sig _ _ HR). split; [done|]. split; [lia|].
    intros n Hn.
    assert (n ∈ (list_to_set names : gset string)) as HnD
      by by apply elem_of_list_to_set.
    pose proof (inv_sig_stop _ _ HR n HnD). lia.
Qed.

Lemma Run_arms_only_ShutdownOn_signals_witness :
  occ is_armed (trace (after demo_signal_unarmed_manager (ShutdownOn [] demo_mgr))) = 0
  ∧ run_pc (after demo_signal_unarmed_manager (ShutdownOn [] demo_mgr)) = PcSelect
  ∧ buf (signalIn (mgr (after demo_signal_unarmed_manager (ShutdownOn [] demo_mgr)))) = [].
Proof.
  assert (run demo_signal_unarmed_manager (initial (ShutdownOn [] demo_mgr))
          = Some (after demo_signal_unarmed_manager (ShutdownOn [] demo_mgr))) as Hrun.
  { apply after_run, (bool_decide_unpack _). vm_compute. reflexivity. }
  split; [|vm_compute; split; reflexivity].
  exact (proj1 (proj2 (proj2 (Run_arms_only_ShutdownOn_signals
           demo_regs genID demo_names demo_ids demo_mgr []
           demo_signal_unarmed_manager _ demo_setup_Ok Hrun)) eq_refl)).
Defined.

Lemma Run_step_touches_only_its_ends_witness :
  ∃ s', step next (after demo_all_done (ShutdownOn [SIGINT] demo_mgr)) = Some s'
    ∧ calls s' = calls (after demo_all_done (ShutdownOn [SIGINT] demo_mgr))
    ∧ shutdownSigs (mgr s') = [SIGINT].
Proof.
  destruct (step next (after demo_all_done (ShutdownOn [SIGINT] demo_mgr)))
    as [s'|] eqn:Hstep.
  - exists s'. split; [reflexivity|].
    destruct (Run_step_touches_only_its_ends OnSignal [] _ s' Hstep)
      as (Hsigs & Hcalls & _).
    split; [exact Hcalls|]. rewrite Hsigs. vm_compute. reflexivity.
  - exfalso. vm_compute in Hstep. discriminate Hstep.
Defined.

(** X9.  [Run] starts every registered unit once, and before anything
    else happens to it: in every state of every run a registered unit has
    been started at most once, exactly once whenever [Run] is at its
    [select]; and a unit that has done anything (received from
    [ShouldStop()], signalled done, run a line of [Panic]) or has an
    activation of [Panic] has been started. *)
Theorem Run_starts_every_unit_once
    regs ids0 names ids m0 sigs ls s n :
  AddUnits regs ids0 NewManager = Ok (names, ids, m0) →
  run ls (initial (ShutdownOn sigs m0)) = Some s →
  n ∈ names →
  occ (is_go n) (trace s) ≤ 1
  ∧ (run_pc s = PcSelect → occ (is_go n) (trace s) = 1)
  ∧ (1 ≤ occ (is_act n) (trace s) → occ (is_go n) (trace s) = 1)
  ∧ (∀ k l, calls s !! k = Some (n, l) → occ (is_go n) (trace s) = 1).
Proof.
  intros Hok Hrun Hn.
  destruct (run_invariants _ _ _ _ _ _ _ _ Hok Hrun) as (HR & _ & _).
  destruct (run_invariants_more _ _ _ _ _ _ _ _ Hok Hrun) as (_ & HS).
  assert (n ∈ (list_to_set names : gset string)) as HnD
    by by apply elem_of_list_to_set.
  pose proof (inv_go _ _ HR n HnD) as Hgo.
  assert (occ (is_go n) (trace s) ≤ 1) as Hle.
  { rewrite Hgo. destruct (run_pc s); simpl; repeat case_bool_decide; lia. }
  split; [done|]. split; [|split].
  - intros Hpc. by rewrite Hgo, Hpc.
  - intros Hact. pose proof (si_go _ HS n (si_act _ HS n Hact)). lia.
  - intros k l Hk. pose proof (si_go _ HS n (si_calls _ HS k n l Hk)). lia.
Qed.

Lemma Run_starts_every_unit_once_witness :
  occ (is_go w1) (trace (after demo_start (ShutdownOn [SIGINT] demo_mgr))) = 1
  ∧ occ (is_go w2) (trace (after demo_start (ShutdownOn [SIGINT] demo_mgr))) = 1.
Proof.
  assert (run demo_start (initial (ShutdownOn [SIGINT] demo_mgr))
          = Some (after demo_start (ShutdownOn [SIGINT] demo_mgr))) as Hrun.
  { apply after_run, (bool_decide_unpack _). vm_compute. reflexivity. }
  assert (run_pc (after demo_start (ShutdownOn [SIGINT] demo_mgr)) = PcSelect)
    as Hpc by (vm_compute; reflexivity).
  assert (w1 ∈ demo_names) as Hw1 by (rewrite demo_names_eq; apply list_elem_of_here).
  assert (w2 ∈ demo_names) as Hw2
    by (rewrite demo_names_eq; apply list_elem_of_further, list_elem_of_here).
  split.
  - exact (proj1 (proj2 (Run_starts_every_unit_once
             demo_regs genID demo_names demo_ids demo_mgr [SIGINT]
             demo_start _ w1 demo_setup_Ok Hrun Hw1)) Hpc).
  - exact (proj1 (proj2 (Run_starts_every_unit_once
             demo_regs genID demo_names demo_ids demo_mgr [SIGINT]
             demo_start _ w2 demo_setup_Ok Hrun Hw2)) Hpc).
Defined.

(** X10.  [Panic] is for one call per unit: an activation that reaches
    the close of line 51 after an earlier activation of the same unit has
    closed the stop channel ends the process with the run-time panic of
    closing a closed channel. *)
Theorem Panic_twice_dies
    regs ids0 names ids m0 sigs ls s n k :
  AddUnits regs ids0 NewManager = Ok (names, ids, m0) →
  run ls (initial (ShutdownOn sigs m0)) = Some s →
  n ∈ names →
  crashed s = false →
  calls s !! k = Some (n, L51) →
  1 ≤ occ (is_close_stop n) (trace s) →
  step (LPanicStep k) s = Some (crash s).
Proof.
  intros Hok Hrun Hn Hcr Hk Hcl.
  destruct (registered_lookup _ _ _ _ _ _ _ _ _ Hok Hrun Hn) as [w Hw].
  destruct (run_invariants_more _ _ _ _ _ _ _ _ Hok Hrun) as (HC & _).
  destruct (ci_stop _ _ HC n w Hw) as (_ & _ & _ & _ & _ & Hclosed).
  rewrite step_LPanicStep by done. unfold Panic_step. rewrite Hk. simpl.
  rewrite Hw. simpl. unfold chan_close. by rewrite (Hclosed Hcl).
Qed.

Lemma Panic_twice_dies_witness :
  calls (after demo_panic_twice (ShutdownOn [SIGINT] demo_mgr)) !! 1%nat
    = Some (w1, L51)
  ∧ step (LPanicStep 1) (after demo_panic_twice (ShutdownOn [SIGINT] demo_mgr))
    = Some (crash (after demo_panic_twice (ShutdownOn [SIGINT] demo_mgr))).
Proof.
  assert (run demo_panic_twice (initial (ShutdownOn [SIGINT] demo_mgr))
          = Some (after demo_panic_twice (ShutdownOn [SIGINT] demo_mgr))) as Hrun.
  { apply after_run, (bool_decide_unpack _). vm_compute. reflexivity. }
  assert (calls (after demo_panic_twice (ShutdownOn [SIGINT] demo_mgr)) !! 1%nat
          = Some (w1, L51)) as Hk by (vm_compute; reflexivity).
  assert (w1 ∈ demo_names) as Hw1 by (rewrite demo_names_eq; apply list_elem_of_here).
  split; [exact Hk|].
  apply (Panic_twice_dies
           demo_regs genID demo_names demo_ids demo_mgr [SIGINT]
           demo_panic_twice _ w1 1 demo_setup_Ok Hrun Hw1).
  - vm_compute. reflexivity.
  - exact Hk.
  - vm_compute. lia.
Defined.

(** * Further properties of registration *)

Lemma Split_dot_length s : length (Split_dot s) = S (count_char "." s).
Proof.
  induction s as [|c s IH]; simpl; [done|].
  case_decide; simpl; [by rewrite IH|].
  pose proof (Split_dot_nonempty s).
  destruct (Split_dot s) as [|h t]; [done|]. simpl in *. lia.
Qed.

Lemma count_char_has_char c s : has_char c s = true ↔ 1 ≤ count_char c s.
Proof.
  induction s as [|c' s IH]; simpl.
  - split; [done|lia].
  - rewrite orb_true_iff, bool_decide_eq_true, IH. case_decide; simpl; [|tauto].
    split; [lia|auto].
Qed.

Lemma Split_dot_free s : Forall (λ seg, has_char "." seg = false) (Split_dot s).
Proof.
  induction s as [|c s IH]; simpl.
  - by repeat constructor.
  - case_decide; [by constructor|].
    pose proof (Split_dot_nonempty s).
    destruct (Split_dot s) as [|h t]; [done|].
    apply Forall_cons in IH as [Hh Ht]. constructor; [|done].
    simpl. rewrite Hh. by rewrite bool_decide_eq_false_2.
Qed.

Lemma Join_dot_cons s h t : Join_dot (s :: h :: t) = s +:+ "." +:+ Join_dot (h :: t).
Proof. done. Qed.

Lemma Join_Split_dot s : Join_dot (Split_dot s) = s.
Proof.
  induction s as [|c s IH]; [done|]. simpl.
  pose proof (Split_dot_nonempty s).
  destruct (Split_dot s) as [|h t] eqn:E; [done|].
  case_decide.
  - subst c. rewrite Join_dot_cons, IH. done.
  - destruct t as [|h' t].
    + simpl in *. by rewrite IH.
    + rewrite Join_dot_cons in *. rewrite app_String. by rewrite IH.
Qed.

Lemma unitClass_is_Some u :
  is_Some (unitClass u) ↔ has_char "." (TypeString u) = true.
Proof.
  unfold unitClass. rewrite lookup_lt_is_Some, Split_dot_length, count_char_has_char.
  lia.
Qed.

(** X11.  [strings.Split(s, ".")], which [AddUnit] indexes at line 163,
    cuts the type's text at its dots: the list has one element more than
    the text has dots, no element contains a dot, and the elements joined
    by dots give the text back. *)
Theorem Split_dot_cuts_at_dots (s : string) :
  length (Split_dot s) = S (count_char "." s)
  ∧ Forall (λ seg, has_char "." seg = false) (Split_dot s)
  ∧ Join_dot (Split_dot s) = s.
Proof.
  split; [apply Split_dot_length|]. split; [apply Split_dot_free|apply Join_Split_dot].
Qed.

(** X12.  [AddUnit] registers the unit exactly when the text of its type
    contains a dot, whatever the label, the generator and the manager are;
    otherwise it ends in the run-time panic.  When it registers, the
    display name is [label[type#suffix]] with a type name that contains no
    dot and the generator's counter for [label[type] as suffix; the
    registry holds under that name the unit with two new channels of
    capacity 1 and the flag down, and is otherwise as before; the
    manager's channels and armed signals are untouched; and the
    generator's counter for [label[type] has gone up by one, the others
    are as before. *)
Theorem AddUnit_registers_iff_type_has_dot
    (u : WorkUnit) (name : string) (ids : gmap string Z) (m : Manager) :
  (has_char "." (TypeString u) = true ↔
     ∃ cls unitName ids' m', has_char "." cls = false ∧
       unitName = (name +:+ "[" +:+ cls) +:+ "#" +:+
                    pretty (default 0%Z (ids !! (name +:+ "[" +:+ cls))) +:+ "]" ∧
       AddUnit u name ids m = Ok (unitName, ids', m') ∧
       workers m' !! unitName = Some (new_WorkUnitManager u) ∧
       (∀ n, n ≠ unitName → workers m' !! n = workers m !! n) ∧
       signalIn m' = signalIn m ∧ Quit m' = Quit m ∧ panic m' = panic m ∧
       shutdownSigs m' = shutdownSigs m ∧
       ids' !! (name +:+ "[" +:+ cls)
         = Some (int_wrap (default 0%Z (ids !! (name +:+ "[" +:+ cls)) + 1)) ∧
       (∀ k, k ≠ name +:+ "[" +:+ cls → ids' !! k = ids !! k))
  ∧ (has_char "." (TypeString u) = false ↔
     AddUnit u name ids m = RuntimePanic "index out of range [1] with length 1").
Proof.
  split.
  - split.
    + intros Hdot. apply unitClass_is_Some in Hdot as [cls Hcls].
      unfold unitClass in Hcls.
      assert (has_char "." cls = false) as Hfree.
      { pose proof (Split_dot_free (TypeString u)) as HF.
        rewrite Forall_lookup in HF. by apply (HF 1%nat). }
      exists cls. eexists. eexists. eexists. split; [done|]. split; [reflexivity|].
      split.
      { unfold AddUnit. rewrite Hcls. simpl. reflexivity. }
      simpl. split; [by rewrite lookup_insert_eq|].
      split; [intros n Hn; by rewrite lookup_insert_ne|].
      repeat (split; [done|]).
      split; [by rewrite lookup_insert_eq|].
      intros k Hk. by rewrite lookup_insert_ne.
    + intros (cls & unitName & ids' & m' & _ & _ & Hok & _). apply unitClass_is_Some.
      unfold unitClass, AddUnit in *.
      by destruct (Split_dot (TypeString u) !! 1%nat).
  - split.
    + intros Hno. unfold AddUnit. by rewrite Split_dot_no_dot.
    + intros Hp. destruct (has_char "." (TypeString u)) eqn:Hdot; [|done].
      apply unitClass_is_Some in Hdot as [cls Hcls].
      unfold unitClass, AddUnit in *. by rewrite Hcls in Hp.
Qed.

Lemma AddUnits_NoDup regs names ids m0 m :
  (Z.of_nat (length regs) < 2 ^ 63)%Z →
  AddUnits regs genID m0 = Ok (names, ids, m) →
  NoDup names.
Proof.
  intros Hlen Hok. apply NoDup_alt.
  assert (∀ i j x, i < j → names !! i = Some x → names !! j = Some x → False) as Hlt.
  { intros i j x Hij Hxi Hxj.
    pose proof (AddUnits_length _ _ _ _ _ _ Hok) as Hl.
    destruct (lookup_lt_is_Some_2 regs i) as [[u name] Hi].
    { rewrite <-Hl. by eapply lookup_lt_Some. }
    destruct (lookup_lt_is_Some_2 regs j) as [[u' name'] Hj].
    { rewrite <-Hl. by eapply lookup_lt_Some. }
    destruct (AddUnits_lookup regs [] genID m0 names ids m i u name
                gen_counts_empty ltac:(simpl; lia) Hok Hi) as (cls & Hcls & Hn).
    destruct (AddUnits_lookup regs [] genID m0 names ids m j u' name'
                gen_counts_empty ltac:(simpl; lia) Hok Hj) as (cls' & Hcls' & Hn').
    rewrite Hxi in Hn. rewrite Hxj in Hn'.
    pose proof (eq_trans (eq_sym Hn) Hn') as Heq. injection Heq as Heq.
    apply display_name_inj in Heq as [Hkey Hcnt].
    apply Nat2Z.inj in Hcnt. simpl in Hcnt.
    rewrite <-Hkey in Hcnt.
    assert (unitKey (u, name) = Some (name +:+ "[" +:+ cls)) as Hk.
    { unfold unitKey. simpl. by rewrite Hcls. }
    pose proof (filter_take_lt (λ r, unitKey r = Some (name +:+ "[" +:+ cls)) regs i j
                  (u, name) Hij Hi Hk). lia. }
  intros i j x Hxi Hxj.
  destruct (Nat.lt_trichotomy i j) as [?|[?|?]]; [|done|]; exfalso; eauto.
Qed.

Lemma AddUnits_other regs : ∀ ids m names ids' m' n,
  AddUnits regs ids m = Ok (names, ids', m') →
  n ∉ names → workers m' !! n = workers m !! n.
Proof.
  induction regs as [|[u name] regs IH]; simpl; intros ids m names ids' m' n Hok Hn.
  - by simplify_eq.
  - destruct (AddUnit u name ids m) as [[[n0 ids0] m0]|] eqn:E0; [|done].
    destruct (AddUnits regs ids0 m0) as [[[ns ids1] m1]|] eqn:E1; [|done].
    simplify_eq. apply not_elem_of_cons in Hn as [Hne Hn].
    rewrite (IH _ _ _ _ _ _ E1 Hn).
    apply AddUnit_Ok in E0 as (cls & _ & -> & -> & ->).
    simpl. by rewrite lookup_insert_ne.
Qed.

Lemma AddUnits_worker regs : ∀ ids m names ids' m' i u name n,
  AddUnits regs ids m = Ok (names, ids', m') →
  NoDup names →
  regs !! i = Some (u, name) → names !! i = Some n →
  workers m' !! n = Some (new_WorkUnitManager u).
Proof.
  induction regs as [|[u0 name0] regs IH]; intros ids m names ids' m' i u name n
    Hok Hnd Hi Hn; [done|].
  simpl in Hok.
  destruct (AddUnit u0 name0 ids m) as [[[n0 ids0] m0]|] eqn:E0; [|done].
  destruct (AddUnits regs ids0 m0) as [[[ns ids1] m1]|] eqn:E1; [|done].
  simplify_eq. apply NoDup_cons in Hnd as [Hn0 Hnd].
  destruct i as [|i]; simpl in Hi, Hn.
  - simplify_eq. rewrite (AddUnits_other _ _ _ _ _ _ _ E1 Hn0).
    apply AddUnit_Ok in E0 as (cls & _ & -> & -> & ->).
    simpl. by rewrite lookup_insert_eq.
  - eauto.
Qed.

(** X13.  A sequence of registrations on a manager with an empty registry
    loses no unit: the registry ends with as many entries as there were
    registrations, the [i]-th unit is found under the [i]-th display name
    with fresh channels of capacity 1 and the failure flag down, and the
    registry's keys are the display names. *)
Theorem AddUnits_registers_every_unit
    (regs : list (WorkUnit * string)) (m0 : Manager)
    (names : list string) (ids : gmap string Z) (m : Manager) :
  (Z.of_nat (length regs) < 2 ^ 63)%Z →
  workers m0 = ∅ →
  AddUnits regs genID m0 = Ok (names, ids, m) →
  size (workers m) = length regs
  ∧ (∀ i u name, regs !! i = Some (u, name) →
       ∃ n, names !! i = Some n ∧
         workers m !! n = Some (new_WorkUnitManager u))
  ∧ (∀ n, is_Some (workers m !! n) ↔ n ∈ names).
Proof.
  intros Hlen Hempty Hok.
  pose proof (AddUnits_NoDup _ _ _ _ _ Hlen Hok) as Hnd.
  pose proof (AddUnits_length _ _ _ _ _ _ Hok) as Hl.
  pose proof (AddUnits_dom _ _ _ _ _ _ Hok) as Hdom.
  rewrite Hempty, dom_empty_L, (right_id_L ∅ (∪)) in Hdom.
  split; [|split].
  - rewrite <-size_dom, Hdom, size_list_to_set by done. done.
  - intros i u name Hi.
    destruct (lookup_lt_is_Some_2 names i) as [n Hn].
    { rewrite Hl. by eapply lookup_lt_Some. }
    exists n. split; [done|]. by eapply AddUnits_worker.
  - intros n. by rewrite <-elem_of_dom, Hdom, elem_of_list_to_set.
Qed.

Lemma AddUnits_registers_every_unit_witness :
  size (workers demo_mgr) = 2
  ∧ workers demo_mgr !! w1 = Some (new_WorkUnitManager Worker)
  ∧ workers demo_mgr !! w2 = Some (new_WorkUnitManager Worker).
Proof.
  assert (Z.of_nat (length demo_regs) < 2 ^ 63)%Z as Hlen by (vm_compute; reflexivity).
  assert (workers NewManager = ∅) as Hempty by reflexivity.
  destruct (AddUnits_registers_every_unit demo_regs NewManager demo_names demo_ids
              demo_mgr Hlen Hempty demo_setup_Ok) as (Hsize & Hreg & _).
  split; [exact Hsize|].
  split.
  - destruct (Hreg 0%nat Worker "work1" eq_refl) as (n & Hn & Hw).
    rewrite demo_names_eq in Hn. injection Hn as <-. exact Hw.
  - destruct (Hreg 1%nat Worker "work2" eq_refl) as (n & Hn & Hw).
    rewrite demo_names_eq in Hn. injection Hn as <-. exact Hw.
Defined.

Lemma AddUnit_cases u name ids m :
  (has_char "." (TypeString u) = true ∧
     ∃ n ids' m', AddUnit u name ids m = Ok (n, ids', m'))
  ∨ (has_char "." (TypeString u) = false ∧
     ∃ msg, AddUnit u name ids m = RuntimePanic msg).
Proof.
  destruct (has_char "." (TypeString u)) eqn:Hdot.
  - left. split; [done|]. apply unitClass_is_Some in Hdot as [cls Hcls].
    unfold unitClass in Hcls. unfold AddUnit. rewrite Hcls. simpl. eauto.
  - right. split; [done|]. unfold AddUnit. rewrite Split_dot_no_dot by done. eauto.
Qed.

(** X14.  A sequence of registrations ends in the run-time panic exactly
    when the text of some unit's type contains no dot. *)
Theorem AddUnits_panics_iff_some_type_has_no_dot
    (regs : list (WorkUnit * string)) (ids : gmap string Z) (m : Manager) :
  (∃ msg, AddUnits regs ids m = RuntimePanic msg)
  ↔ Exists (λ r, has_char "." (TypeString r.1) = false) regs.
Proof.
  revert ids m. induction regs as [|[u name] regs IH]; intros ids m; simpl.
  - rewrite Exists_nil. split; [by intros [? ?]|done].
  - rewrite Exists_cons. simpl.
    destruct (AddUnit_cases u name ids m)
      as [[Hdot (n & ids' & m' & ->)]|[Hdot [msg ->]]]; rewrite Hdot.
    + rewrite <-(IH ids' m').
      destruct (AddUnits regs ids' m') as [[[ns ids1] m1]|msg].
      * split; [by intros [? ?]|]. by intros [?|[? ?]].
      * split; [eauto|]. eauto.
    + split; [auto|eauto].
Qed.

(** X15.  The generator keeps one counter per key: a request returns the
    key's counter and raises it by one, wrapping around from the largest
    [int] to the smallest, and leaves the counters of all other keys as
    they are, so that requests for different keys do not influence each
    other. *)
Theorem idGenerator_counts_per_key (k : string) (ids : gmap string Z) (z : Z) :
  default 0%Z (ids !! k) = z → (- 2 ^ 63 ≤ z < 2 ^ 63)%Z →
  (idGenerator k ids).1 = z
  ∧ (idGenerator k (idGenerator k ids).2).1
      = (if decide (z = 2 ^ 63 - 1) then - 2 ^ 63 else z + 1)%Z
  ∧ (∀ k', k' ≠ k → (idGenerator k ids).2 !! k' = ids !! k')
  ∧ (∀ k', k' ≠ k →
       (idGenerator k' (idGenerator k ids).2).1 = (idGenerator k' ids).1
       ∧ (idGenerator k (idGenerator k' ids).2).1 = z).
Proof.
  intros Hz Hrange. unfold idGenerator. simpl. split; [done|]. split; [|split].
  - rewrite lookup_insert_eq. simpl. rewrite Hz. unfold int_wrap.
    case_decide as Hmax.
    + subst z. rewrite Hmax. reflexivity.
    + rewrite Z.mod_small; lia.
  - intros k' Hk. by rewrite lookup_insert_ne.
  - intros k' Hk. by rewrite !lookup_insert_ne.
Qed.

Lemma idGenerator_counts_per_key_witness :
  (idGenerator "work1[Worker" genID).1 = 0%Z
  ∧ (idGenerator "work1[Worker" (idGenerator "work1[Worker" genID).2).1 = 1%Z.
Proof.
  assert (default 0%Z (genID !! "work1[Worker") = 0%Z) as Hz by reflexivity.
  assert (- 2 ^ 63 ≤ 0 < 2 ^ 63)%Z as Hrange by lia.
  destruct (idGenerator_counts_per_key "work1[Worker" genID 0 Hz Hrange)
    as (H1 & H2 & _).
  split; [exact H1|exact H2].
Defined.

Lemma AddUnit_ShutdownOn sigs u name ids m :
  AddUnit u name ids (ShutdownOn sigs m) =
    match AddUnit u name ids m with
    | Ok (n, ids', m') => Ok (n, ids', ShutdownOn sigs m')
    | RuntimePanic msg => RuntimePanic msg
    end.
Proof.
  unfold AddUnit. destruct (Split_dot (TypeString u) !! 1%nat); done.
Qed.

(** X16.  [ShutdownOn] adds to the signals armed so far and touches
    nothing else: two calls arm what one call with both lists arms, a
    signal is armed afterwards exactly when it was armed before or is among
    the arguments, and it makes no difference whether units are registered
    before or after the call. *)
Theorem ShutdownOn_accumulates_and_commutes
    (sigs1 sigs2 : list Signal) (regs : list (WorkUnit * string))
    (ids : gmap string Z) (m : Manager) :
  ShutdownOn sigs2 (ShutdownOn sigs1 m) = ShutdownOn (sigs1 ++ sigs2) m
  ∧ (∀ sig, in_ (shutdownSigs (ShutdownOn sigs1 m)) sig
            = in_ (shutdownSigs m) sig || in_ sigs1 sig)
  ∧ AddUnits regs ids (ShutdownOn sigs1 m) =
      match AddUnits regs ids m with
      | Ok (names, ids', m') => Ok (names, ids', ShutdownOn sigs1 m')
      | RuntimePanic msg => RuntimePanic msg
      end.
Proof.
  split; [|split].
  - unfold ShutdownOn. simpl. by rewrite app_assoc.
  - intros sig. unfold in_, ShutdownOn. simpl.
    apply eq_true_iff_eq. rewrite orb_true_iff, !bool_decide_eq_true, elem_of_app.
    done.
  - revert ids m. induction regs as [|[u name] regs IH]; intros ids m; [done|].
    simpl. rewrite AddUnit_ShutdownOn.
    destruct (AddUnit u name ids m) as [[[n0 ids0] m0]|]; [|done].
    rewrite IH. by destruct (AddUnits regs ids0 m0) as [[[ns ids1] m1]|].
Qed.

(** * Loops of [Run] and reactions of the units *)











(** ** Whole shutdowns *)












(** ** Counting in the traces of a shutdown *)






(** ** From the entry of [Run] to the [select] *)


(** * What a shutdown achieves *)









(** C5, as the code has it.  (1) When [Run] stands in a wait loop, every
    unit still to be waited for has a done signal pending and [Quit] is
    open and has room, then [Run], left to itself, receives each of these
    signals, sends on [Quit] once and is back at the [select] of its loop.
    (2) While [Quit] is full, [Run] is blocked at the quit send.  (3) No
    step of the program takes [Run] from a line of its loop to a line
    outside it: [Run] does not leave the loop, so it does not return.
    (4) Back at the [select], [Run] takes an armed signal that is first in
    the intake into the stop loop of lines 85-88, and a failure report
    that is first in the sink into the log loop of lines 103-107. *)
Theorem Run_quits_once_and_selects_again :
  (∀ s via todo,
     crashed s = false →
     run_pc s = PcWait via todo →
     NoDup todo →
     (∀ n, n ∈ todo → ∃ w, workers (mgr s) !! n = Some w ∧ buf (workerQuit w) ≠ []) →
     closed (Quit (mgr s)) = false →
     length (buf (Quit (mgr s))) < cap (Quit (mgr s)) →
     ∃ s', run (replicate (length todo + 2) next) s = Some s' ∧
       run_pc s' = PcSelect ∧ crashed s' = false ∧
       buf (Quit (mgr s')) = buf (Quit (mgr s)) ++ [true] ∧
       (∀ v, occ (is_quit v) (trace s')
             = occ (is_quit v) (trace s) + (if bool_decide (via = v) then 1 else 0)) ∧
       (∀ v n, occ (is_wait v n) (trace s')
               = occ (is_wait v n) (trace s)
                 + (if bool_decide (via = v) && bool_decide (n ∈ todo) then 1 else 0)))
  ∧ (∀ s via case_ order,
       crashed s = false → run_pc s = PcQuit via →
       closed (Quit (mgr s)) = false →
       cap (Quit (mgr s)) ≤ length (buf (Quit (mgr s))) →
       step (LRun case_ order) s = None)
  ∧ (∀ l s s',
       step l s = Some s' → in_loop (run_pc s) = true → in_loop (run_pc s') = true)
  ∧ (∀ s sig rest order,
       crashed s = false → run_pc s = PcSelect →
       buf (signalIn (mgr s)) = sig :: rest →
       in_ (shutdownSigs (mgr s)) sig = true →
       is_order order (mgr s) = true →
       ∃ s', step (LRun OnSignal order) s = Some s' ∧
         run_pc s' = PcSigStop order ∧ crashed s' = false ∧
         buf (signalIn (mgr s')) = rest ∧
         trace s' = EvLog "shutting event received ... "
                      :: EvRecvSignal sig true :: trace s)
  ∧ (∀ s p rest order,
       crashed s = false → run_pc s = PcSelect →
       buf (panic (mgr s)) = p :: rest →
       is_order order (mgr s) = true →
       ∃ s', step (LRun OnPanic order) s = Some s' ∧
         run_pc s' = PcPanLog p order ∧ crashed s' = false ∧
         buf (panic (mgr s')) = rest ∧
         trace s' = EvRecvPanic p :: trace s).
Proof.
  split; [|split; [|split; [|split]]].
  - intros s via todo. revert s.
    induction todo as [|name todo IH]; intros s Hcr Hpc Hnd Hdone Hopen Hroom.
    + eexists. split.
      * cbn [length Nat.add replicate]. unfold next.
        erewrite run_cons; [|rewrite step_LRun by done; by apply Run_step_Wait_nil].
        erewrite run_cons; [|rewrite step_LRun by done; by apply Run_step_Quit].
        reflexivity.
      * simpl. repeat split; try done.
        -- intros v. lia.
        -- intros v n. rewrite andb_false_r. lia.
    + apply NoDup_cons in Hnd as [Hnotin Hnd].
      destruct (Hdone name) as (w & Hw & Hbuf); [apply list_elem_of_here|].
      destruct (buf (workerQuit w)) as [|v rest] eqn:Hb; [done|].
      destruct (IH (s |> upd (set_worker name
                        (set_workerQuit {| buf := rest; cap := cap (workerQuit w);
                                           closed := closed (workerQuit w) |} w))
                      |> emit (EvRecvWorkerQuit via name)
                      |> emit (EvLog ("<" +:+ name +:+ "> down"))
                      |> goto (PcWait via todo)))
        as (s' & Hrun & Hpc' & Hcr' & Hq & Hquits & Hwaits); try done.
      { intros n Hn. simpl. rewrite lookup_insert_ne by (intros ->; done).
        apply Hdone. by apply list_elem_of_further. }
      exists s'. split.
      * cbn [length Nat.add replicate]. unfold next.
        erewrite run_cons;
          [|rewrite step_LRun by done; by eapply Run_step_Wait_cons].
        exact Hrun.
      * split; [done|]. split; [done|]. split; [done|]. split.
        -- intros v'. rewrite Hquits. simpl. done.
        -- intros v' n. rewrite Hwaits. simpl.
           repeat case_bool_decide; simplify_eq; simpl; try lia; exfalso;
             rewrite ?elem_of_cons in *; naive_solver.
  - intros s via case_ order Hcr Hpc Hopen Hfull.
    rewrite step_LRun by done. unfold Run_step, chan_send. rewrite Hpc, Hopen.
    by rewrite decide_False by lia.
  - intros l s s' Hstep Hin.
    destruct s as [m pc cs st tr cr]. unfold step in Hstep. simpl in *.
    destruct cr; [done|].
    destruct l as [case_ order|sig|name|name|name err|k|].
    + unfold Run_step in Hstep. simpl in Hstep.
      destruct pc as [ | [|n t] | | [|n t] | n t | p [|n t] | [|n t] | n t
                     | via [|n t] | via ]; simpl in *; try done;
        step_cases Hstep; simplify_eq; done.
    + step_cases Hstep; simplify_eq; done.
    + step_cases Hstep; simplify_eq; done.
    + step_cases Hstep; simplify_eq; done.
    + step_cases Hstep; simplify_eq; done.
    + unfold Panic_step in Hstep. simpl in Hstep.
      step_cases Hstep; simplify_eq; done.
    + step_cases Hstep; simplify_eq; done.
  - intros s sig rest order Hcr Hpc Hbuf Harmed Ho.
    eexists. split.
    + rewrite step_LRun by done. by apply (Run_step_Select_armed _ _ sig rest).
    + done.
  - intros s p rest order Hcr Hpc Hbuf Ho.
    eexists. split.
    + rewrite step_LRun by done. unfold Run_step, chan_recv.
      rewrite Hpc, Hbuf, Ho. reflexivity.
    + done.
Qed.

Lemma Run_quits_once_and_selects_again_witness :
  (∃ s', run (replicate 4 next) (after demo_all_done (ShutdownOn [SIGINT] demo_mgr))
         = Some s' ∧
     run_pc s' = PcSelect ∧
     buf (Quit (mgr s'))
     = buf (Quit (mgr (after demo_all_done (ShutdownOn [SIGINT] demo_mgr)))) ++ [true])
  ∧ (run_pc (after demo_quit_unread (ShutdownOn [SIGINT] demo_mgr)) = PcQuit OnSignal
     ∧ step next (after demo_quit_unread (ShutdownOn [SIGINT] demo_mgr)) = None)
  ∧ in_loop (run_pc (after demo_signal_shutdown (ShutdownOn [SIGINT] demo_mgr))) = true
  ∧ (∃ s', step (LRun OnSignal [w1; w2])
             (after demo_signalled (ShutdownOn [SIGINT] demo_mgr)) = Some s' ∧
       run_pc s' = PcSigStop [w1; w2])
  ∧ (∃ s', step (LRun OnPanic [w1; w2])
             (after demo_failed (ShutdownOn [SIGINT] demo_mgr)) = Some s' ∧
       run_pc s' = PcPanLog (Some "boom") [w1; w2]).
Proof.
  destruct Run_quits_once_and_selects_again
    as (Hquit & Hfull & Hloop & Hsig & Hpan).
  split; [|split; [|split; [|split]]].
  - destruct (Hquit (after demo_all_done (ShutdownOn [SIGINT] demo_mgr)) OnSignal [w2; w1])
      as (s' & Hrun & Hpc & _ & Hq & _).
    + vm_compute. reflexivity.
    + vm_compute. reflexivity.
    + apply (bool_decide_unpack _). vm_compute. reflexivity.
    + intros n Hn.
      apply elem_of_cons in Hn as [->|Hn]; [|apply elem_of_cons in Hn as [->|Hn]].
      * eexists. split; [vm_compute; reflexivity|discriminate].
      * eexists. split; [vm_compute; reflexivity|discriminate].
      * by apply elem_of_nil in Hn.
    + vm_compute. reflexivity.
    + vm_compute. lia.
    + exists s'. split; [exact Hrun|]. split; [exact Hpc|exact Hq].
  - assert (run_pc (after demo_quit_unread (ShutdownOn [SIGINT] demo_mgr))
            = PcQuit OnSignal) as Hpc by (vm_compute; reflexivity).
    split; [exact Hpc|].
    apply (Hfull (after demo_quit_unread (ShutdownOn [SIGINT] demo_mgr))
             OnSignal OnSignal []).
    + vm_compute. reflexivity.
    + exact Hpc.
    + vm_compute. reflexivity.
    + vm_compute. lia.
  - assert (∃ s0, step next s0
              = Some (after demo_signal_shutdown (ShutdownOn [SIGINT] demo_mgr))
              ∧ in_loop (run_pc s0) = true) as (s0 & Hstep & Hin).
    { exists (after (removelast demo_signal_shutdown) (ShutdownOn [SIGINT] demo_mgr)).
      split; vm_compute; reflexivity. }
    exact (Hloop _ _ _ Hstep Hin).
  - destruct (Hsig (after demo_signalled (ShutdownOn [SIGINT] demo_mgr)) SIGINT []
                [w1; w2]) as (s' & Hstep & Hpc & _).
    + vm_compute. reflexivity.
    + vm_compute. reflexivity.
    + vm_compute. reflexivity.
    + vm_compute. reflexivity.
    + vm_compute. reflexivity.
    + exists s'. split; [exact Hstep|exact Hpc].
  - destruct (Hpan (after demo_failed (ShutdownOn [SIGINT] demo_mgr)) (Some "boom") []
                [w1; w2]) as (s' & Hstep & Hpc & _).
    + vm_compute. reflexivity.
    + vm_compute. reflexivity.
    + vm_compute. reflexivity.
    + vm_compute. reflexivity.
    + exists s'. split; [exact Hstep|exact Hpc].
Defined.

(** C5, as stated, fails: after the quit signal [Run] has not left its
    loop.  It is back at the [select], and when the caller has taken the
    quit signal and the units answer once more, a second armed signal
    makes it run the whole shutdown again and signal quit a second time. *)
Lemma Run_does_not_exit_after_quit :
  run_pc (after demo_signal_shutdown (ShutdownOn [SIGINT] demo_mgr)) = PcSelect
  ∧ occ (is_quit OnSignal)
      (trace (after demo_signal_shutdown (ShutdownOn [SIGINT] demo_mgr))) = 1
  ∧ run_pc (after demo_second_shutdown (ShutdownOn [SIGINT] demo_mgr)) = PcSelect
  ∧ occ (is_quit OnSignal)
      (trace (after demo_second_shutdown (ShutdownOn [SIGINT] demo_mgr))) = 2.
Proof. vm_compute. repeat split. Qed.

(** C7, as the code has it.  In every state of every run, for every
    registered unit [n]: (1) quit has been signalled at most as often as
    [n] has signalled done, counted over the whole run; (2) while [n] has
    signalled done less often than shutdowns have been triggered, [Run] is
    neither back at the [select] nor at the quit send; (3) when [Run]
    waits for [n] and has already received all that [n] has sent, it has
    no move at all: nothing but a done signal of [n] lets it go on. *)
Theorem Run_never_quits_without_done
    regs ids0 names ids m0 sigs ls s n :
  AddUnits regs ids0 NewManager = Ok (names, ids, m0) →
  run ls (initial (ShutdownOn sigs m0)) = Some s →
  n ∈ names →
  occ (is_quit OnSignal) (trace s) + occ (is_quit OnPanic) (trace s)
    ≤ occ (is_done n) (trace s)
  ∧ (occ (is_done n) (trace s) < occ is_armed (trace s) + occ is_drain (trace s) →
     occ (is_quit OnSignal) (trace s) + occ (is_quit OnPanic) (trace s)
       < occ is_armed (trace s) + occ is_drain (trace s) ∧
     run_pc s ≠ PcSelect ∧ ∀ via, run_pc s ≠ PcQuit via)
  ∧ (∀ via todo case_ order,
       run_pc s = PcWait via (n :: todo) →
       occ (is_done n) (trace s)
       = occ (is_wait OnSignal n) (trace s) + occ (is_wait OnPanic n) (trace s) →
       step (LRun case_ order) s = None).
Proof.
  intros Hok Hrun Hn.
  destruct (run_invariants _ _ _ _ _ _ _ _ Hok Hrun) as (HR & HB & _).
  destruct HR as [Hdom _ _ Hps Hpp Hws Hwp _ _ _ _].
  assert (n ∈ (list_to_set names : gset string)) as HnD
    by by apply elem_of_list_to_set.
  specialize (Hws n HnD). specialize (Hwp n HnD).
  rewrite <-Hdom in HnD. apply elem_of_dom in HnD as [w Hw].
  destruct (buf_done _ HB n w Hw) as [Hopen Hlen].
  split; [lia|]. split.
  - intros Hless. split; [lia|]. split.
    + intros Hpc. rewrite Hpc in Hps, Hpp. simpl in *. lia.
    + intros via Hpc. rewrite Hpc in Hps, Hpp, Hws, Hwp. simpl in *.
      destruct via; repeat case_bool_decide; simplify_eq; lia.
  - intros via todo case_ order Hpc Hall. unfold step, Run_step.
    destruct (crashed s); [done|]. simpl. rewrite Hpc, Hw. simpl.
    unfold chan_recv. rewrite Hopen.
    destruct (buf (workerQuit w)); [done|]. simpl in Hlen. lia.
Qed.

Lemma Run_never_quits_without_done_witness :
  run_pc (after demo_hanging_unit (ShutdownOn [SIGINT] demo_mgr)) = PcWait OnSignal [w2] ∧
  occ (is_done w2) (trace (after demo_hanging_unit (ShutdownOn [SIGINT] demo_mgr))) = 0 ∧
  occ (is_quit OnSignal) (trace (after demo_hanging_unit (ShutdownOn [SIGINT] demo_mgr))) = 0 ∧
  occ (is_quit OnSignal) (trace (after demo_hanging_unit (ShutdownOn [SIGINT] demo_mgr)))
    + occ (is_quit OnPanic) (trace (after demo_hanging_unit (ShutdownOn [SIGINT] demo_mgr)))
    < occ is_armed (trace (after demo_hanging_unit (ShutdownOn [SIGINT] demo_mgr)))
      + occ is_drain (trace (after demo_hanging_unit (ShutdownOn [SIGINT] demo_mgr))) ∧
  step next (after demo_hanging_unit (ShutdownOn [SIGINT] demo_mgr)) = None.
Proof.
  assert (run demo_hanging_unit (initial (ShutdownOn [SIGINT] demo_mgr))
          = Some (after demo_hanging_unit (ShutdownOn [SIGINT] demo_mgr))) as Hrun.
  { apply after_run, (bool_decide_unpack _). vm_compute. reflexivity. }
  assert (occ (is_done w2) (trace (after demo_hanging_unit (ShutdownOn [SIGINT] demo_mgr))) = 0)
    as Hdone by (vm_compute; reflexivity).
  assert (occ (is_wait OnSignal w2)
            (trace (after demo_hanging_unit (ShutdownOn [SIGINT] demo_mgr)))
          + occ (is_wait OnPanic w2)
              (trace (after demo_hanging_unit (ShutdownOn [SIGINT] demo_mgr))) = 0)
    as Hwaits by (vm_compute; reflexivity).
  assert (run_pc (after demo_hanging_unit (ShutdownOn [SIGINT] demo_mgr))
          = PcWait OnSignal [w2]) as Hpc by (vm_compute; reflexivity).
  assert (w2 ∈ demo_names) as Hw2
    by (rewrite demo_names_eq; apply list_elem_of_further, list_elem_of_here).
  destruct (Run_never_quits_without_done
              demo_regs genID demo_names demo_ids demo_mgr [SIGINT]
              demo_hanging_unit _ w2 demo_setup_Ok Hrun Hw2)
    as (Hq & Hless & Hblocked).
  specialize (Hblocked OnSignal [] OnSignal [] Hpc (eq_trans Hdone (eq_sym Hwaits))).
  assert (occ is_armed (trace (after demo_hanging_unit (ShutdownOn [SIGINT] demo_mgr)))
          = 1) as Harmed by (vm_compute; reflexivity).
  clear Hrun.
  remember (after demo_hanging_unit (ShutdownOn [SIGINT] demo_mgr)) as s eqn:Hs.
  clear Hs. split; [exact Hpc|]. split; [exact Hdone|]. split; [lia|].
  split; [|exact Hblocked].
  apply Hless. lia.
Defined.

(** C7, as stated, fails: what counts is every done signal of the run, not
    those sent after the shutdown is triggered.  Both units call [Done]
    before the signal arrives and never again; [Run] finds the two done
    signals in the channels, signals quit and is back at the [select]. *)
Lemma Run_quits_on_done_sent_before_trigger :
  run demo_early_done (initial (ShutdownOn [SIGINT] demo_mgr))
    = Some (after demo_early_done (ShutdownOn [SIGINT] demo_mgr))
  ∧ occ is_trigger (trace (after demo_early_done (ShutdownOn [SIGINT] demo_mgr))) = 1
  ∧ occ (is_done w1)
      (since is_trigger (trace (after demo_early_done (ShutdownOn [SIGINT] demo_mgr)))) = 0
  ∧ occ (is_done w2)
      (since is_trigger (trace (after demo_early_done (ShutdownOn [SIGINT] demo_mgr)))) = 0
  ∧ occ (is_quit OnSignal)
      (since is_trigger (trace (after demo_early_done (ShutdownOn [SIGINT] demo_mgr)))) = 1
  ∧ run_pc (after demo_early_done (ShutdownOn [SIGINT] demo_mgr)) = PcSelect
  ∧ crashed (after demo_early_done (ShutdownOn [SIGINT] demo_mgr)) = false.
Proof.
  split; [apply after_run, (bool_decide_unpack _); vm_compute; reflexivity|].
  vm_compute. repeat split.
Qed.
